(** * tablo.tv client library: the live transcoding supervisor, its registry
      and the device request signature

    A shallow embedding of [src/live_transcoder.ts] and of
    [TabloAPI.generateAuthHeader] from [src/tablo_api.ts].

    JavaScript runs the supervisor on one thread: a method body runs without
    interruption up to its next [await], and timers, child-process events and
    promise resolutions are delivered one at a time.  The embedding therefore
    gives every uninterrupted piece of code as a function on the state, and
    a run of the program as a list of events, each consumed by [step]. *)

From Stdlib Require Import ZArith List Bool Lia.
From stdpp Require Import gmap strings list fin_maps.
Import ListNotations.

Local Open Scope string_scope.
Local Open Scope Z_scope.
Local Open Scope list_scope.

(** ** Data *)

(** [Tablo.PlayerSession]: the fields the supervisor reads ([expires],
    [video_details] and [channel] are carried by the device object only). *)
Record PlayerSession := mkSession {
  token : string;
  keepalive : Z;
  playlist_url : string
}.

(** A [ChildProcess] as far as the supervisor looks at it.  [exited] says that
    its 'exit' event has been delivered; [killed] is Node's flag of the same
    name, set once [kill()] has sent its signal. *)
Record ChildProcess := mkProc {
  spawnfile : string;
  spawnargs : list string;
  exited : bool;
  killed : bool;
  stdin_written : list string
}.

(** A [Timer] from [@gibme/timer]: the interval it was built with, in
    milliseconds, and whether [destroy()] has been called on it. *)
Record Timer := mkTimer {
  interval_ms : Z;
  destroyed : bool
}.

(** The four signals of the public emitter.  What the supervisor emits is
    kept as a log, in order; the listeners belong to the caller, and each
    signal is taken to have one (Node turns an 'error' nobody listens to
    into an exception). *)
Inductive Signal :=
| Ready
| Error (message : string)
| Exit (code : option Z)
| Stopped.

(** Requests sent to the device object. *)
Inductive DeviceCall :=
| WatchChannel (channel : string)
| KeepaliveSession (tok : string)
| DeleteSession (tok : string).

(** The fields of a [LiveTranscoder] object.  [process] and [timer] hold
    handles: positions in the tables of every process spawned and every timer
    built so far, so that a handle that was overwritten leaves its process or
    timer behind. *)
Record LiveTranscoder := mkLT {
  id : string;
  channel_id : string;
  output_path : string;
  filename : string;
  auto_restart : bool;
  ffmpeg_path : string;
  process : option nat;
  timer : option nat;
  _use_count : Z;
  _active : bool;
  _full_path : string;
  _session : option PlayerSession
}.

Definition set_process (p : option nat) (t : LiveTranscoder) : LiveTranscoder :=
  mkLT (id t) (channel_id t) (output_path t) (filename t) (auto_restart t)
       (ffmpeg_path t) p (timer t) (_use_count t) (_active t) (_full_path t)
       (_session t).

Definition set_timer (tm : option nat) (t : LiveTranscoder) : LiveTranscoder :=
  mkLT (id t) (channel_id t) (output_path t) (filename t) (auto_restart t)
       (ffmpeg_path t) (process t) tm (_use_count t) (_active t) (_full_path t)
       (_session t).

Definition set_use_count (n : Z) (t : LiveTranscoder) : LiveTranscoder :=
  mkLT (id t) (channel_id t) (output_path t) (filename t) (auto_restart t)
       (ffmpeg_path t) (process t) (timer t) n (_active t) (_full_path t)
       (_session t).

Definition set_active (b : bool) (t : LiveTranscoder) : LiveTranscoder :=
  mkLT (id t) (channel_id t) (output_path t) (filename t) (auto_restart t)
       (ffmpeg_path t) (process t) (timer t) (_use_count t) b (_full_path t)
       (_session t).

Definition set_session (s : option PlayerSession) (t : LiveTranscoder)
  : LiveTranscoder :=
  mkLT (id t) (channel_id t) (output_path t) (filename t) (auto_restart t)
       (ffmpeg_path t) (process t) (timer t) (_use_count t) (_active t)
       (_full_path t) s.

(** ** The filesystem *)

(** The paths that exist.  [rm_fault] says that a removal raises (a
    permission or busy error); the handlers that remove a directory catch
    what it raises. *)
Record FileSystem := mkFS {
  entries : gset string;
  rm_fault : bool
}.

(** [path.resolve(base, './' + name)] for a base that is already resolved. *)
Definition resolve (base name : string) : string := base +:+ "/" +:+ name.

Definition is_within (dir p : string) : bool :=
  String.eqb p dir || String.prefix (dir +:+ "/") p.

Definition existsSync (p : string) (fs : FileSystem) : bool :=
  bool_decide (p ∈ entries fs).

(** [rmSync(dir, { recursive: true, force: true })]: [None] when it raises. *)
Definition rmSync (dir : string) (fs : FileSystem) : option FileSystem :=
  if rm_fault fs then None
  else Some (mkFS (filter (fun p => is_within dir p = false) (entries fs))
                  (rm_fault fs)).

(** [mkdirSync(dir, { recursive: true })]. *)
Definition mkdirSync (dir : string) (fs : FileSystem) : FileSystem :=
  mkFS ({[ dir ]} ∪ entries fs) (rm_fault fs).

(** A file written by the external tool. *)
Definition write_file (p : string) (fs : FileSystem) : FileSystem :=
  mkFS ({[ p ]} ∪ entries fs) (rm_fault fs).

(** ** The world of one supervisor *)

Record World := mkWorld {
  sup : LiveTranscoder;
  procs : list ChildProcess;
  timers : list Timer;
  fs : FileSystem;
  emitted : list Signal;
  device_log : list DeviceCall;
  pending_starts : nat;
  pending_polls : nat;
  pending_aborts : nat
}.

Definition set_sup (t : LiveTranscoder) (w : World) : World :=
  mkWorld t (procs w) (timers w) (fs w) (emitted w) (device_log w)
          (pending_starts w) (pending_polls w) (pending_aborts w).

Definition set_procs (ps : list ChildProcess) (w : World) : World :=
  mkWorld (sup w) ps (timers w) (fs w) (emitted w) (device_log w)
          (pending_starts w) (pending_polls w) (pending_aborts w).

Definition set_timers (ts : list Timer) (w : World) : World :=
  mkWorld (sup w) (procs w) ts (fs w) (emitted w) (device_log w)
          (pending_starts w) (pending_polls w) (pending_aborts w).

Definition set_fs (f : FileSystem) (w : World) : World :=
  mkWorld (sup w) (procs w) (timers w) f (emitted w) (device_log w)
          (pending_starts w) (pending_polls w) (pending_aborts w).

Definition emit (s : Signal) (w : World) : World :=
  mkWorld (sup w) (procs w) (timers w) (fs w) (emitted w ++ [s]) (device_log w)
          (pending_starts w) (pending_polls w) (pending_aborts w).

Definition request (c : DeviceCall) (w : World) : World :=
  mkWorld (sup w) (procs w) (timers w) (fs w) (emitted w) (device_log w ++ [c])
          (pending_starts w) (pending_polls w) (pending_aborts w).

Definition set_pending_starts (n : nat) (w : World) : World :=
  mkWorld (sup w) (procs w) (timers w) (fs w) (emitted w) (device_log w)
          n (pending_polls w) (pending_aborts w).

Definition set_pending_polls (n : nat) (w : World) : World :=
  mkWorld (sup w) (procs w) (timers w) (fs w) (emitted w) (device_log w)
          (pending_starts w) n (pending_aborts w).

Definition set_pending_aborts (n : nat) (w : World) : World :=
  mkWorld (sup w) (procs w) (timers w) (fs w) (emitted w) (device_log w)
          (pending_starts w) (pending_polls w) n.

Definition update_sup (f : LiveTranscoder -> LiveTranscoder) (w : World) : World :=
  set_sup (f (sup w)) w.

(** ** The supervisor's code *)

(** The argument vector built by [start_ffmpeg]. *)
Definition ffmpeg_args (url full_path : string) : list string :=
  ["-re"; "-i"; url;
   "-c:v"; "libx264"; "-preset"; "veryfast"; "-tune";
   "zerolatency"; "-crf"; "23"; "-g"; "48";
   "-keyint_min"; "48"; "-sc_threshold"; "0"; "-ac";
   "2"; "-c:a"; "aac"; "-b:a"; "128k";
   "-f"; "hls"; "-hls_time"; "4"; "-hls_list_size";
   "6"; "-hls_flags"; "delete_segments+program_date_time+append_list";
   full_path].

(** [start_ffmpeg]: without a session nothing is spawned; otherwise a new
    process is spawned and its handle stored, whatever the handle held. *)
Definition start_ffmpeg (w : World) : bool * World :=
  match _session (sup w) with
  | None => (false, w)
  | Some s =>
      let p := mkProc (ffmpeg_path (sup w))
                      (ffmpeg_args (playlist_url s) (_full_path (sup w)))
                      false false [] in
      let pid := length (procs w) in
      (true, update_sup (set_process (Some pid)) (set_procs (procs w ++ [p]) w))
  end.

(** The handler of the internal 'stopped' event. *)
Definition on_stopped (w : World) : World :=
  let current_path := resolve (output_path (sup w)) (id (sup w)) in
  let w1 :=
    if existsSync current_path (fs w) then
      match rmSync current_path (fs w) with
      | Some f => set_fs f w
      | None => w
      end
    else w in
  emit Stopped w1.

Definition write_stdin (c : string) (p : ChildProcess) : ChildProcess :=
  mkProc (spawnfile p) (spawnargs p) (exited p) (killed p) (stdin_written p ++ [c]).

(** [if (!process.killed) process.kill()]: the signal reaches a process that
    has not exited, and only then does Node set [killed]. *)
Definition kill_unless_killed (p : ChildProcess) : ChildProcess :=
  if killed p then p
  else mkProc (spawnfile p) (spawnargs p) (exited p) (negb (exited p)) (stdin_written p).

Definition destroy (t : Timer) : Timer := mkTimer (interval_ms t) true.

(** The abort handler from [await device.deleteSession] on (or from the test
    of the session, when there is none). *)
Definition abort_finish (w : World) : World :=
  on_stopped (update_sup (set_active false) w).

(** The handler of the internal 'abort' event, up to its [await]. *)
Definition on_abort (w : World) : World :=
  match process (sup w) with
  | None => w
  | Some pid =>
      let w1 := set_procs
                  (alter (fun p => kill_unless_killed (write_stdin "q" p)) pid (procs w))
                  w in
      let w2 := update_sup (set_process None) w1 in
      let w3 := match timer (sup w2) with
                | Some tid => set_timers (alter destroy tid (timers w2)) w2
                | None => w2
                end in
      let w4 := update_sup (set_timer None) w3 in
      match _session (sup w4) with
      | Some s =>
          set_pending_aborts (S (pending_aborts w4))
                             (request (DeleteSession (token s)) w4)
      | None => abort_finish w4
      end
  end.

Definition incr_use_count (t : LiveTranscoder) : LiveTranscoder :=
  set_use_count (_use_count t + 1) t.

Definition decr_use_count (t : LiveTranscoder) : LiveTranscoder :=
  set_use_count (_use_count t - 1) t.

(** [start()] up to its [await]: [Some b] when it returns [b] at once, [None]
    when it is suspended on [device.watchChannel]. *)
Definition start_call (w : World) : option bool * World :=
  if _active (sup w) then
    (Some true, emit Ready (update_sup incr_use_count w))
  else
    (None, set_pending_starts (S (pending_starts w))
                              (request (WatchChannel (channel_id (sup w))) w)).

(** The interval handed to [new Timer], from the session's lease. *)
Definition keepalive_interval (s : PlayerSession) : Z := (keepalive s - 30) * 1000.

(** [start()] from the point where [device.watchChannel] has answered [r]. *)
Definition start_resume (r : option PlayerSession) (w : World) : bool * World :=
  let w1 := update_sup (set_session r) w in
  match r with
  | None => (false, emit (Error "Failed to start session") w1)
  | Some s =>
      let tid := length (timers w1) in
      let w2 := update_sup (set_timer (Some tid))
                  (set_timers (timers w1 ++ [mkTimer (keepalive_interval s) false]) w1) in
      let w3 := update_sup incr_use_count w2 in
      let (started, w4) := start_ffmpeg w3 in
      if started then (started, set_pending_polls (S (pending_polls w4)) w4)
      else (started, w4)
  end.

(** The callback of [setTimeout(..., 100)] set by [check]: it either marks the
    supervisor active or sets itself again. *)
Definition check_fires (w : World) : World :=
  if existsSync (_full_path (sup w)) (fs w) then
    emit Ready (update_sup (set_active true)
                           (set_pending_polls (Nat.pred (pending_polls w)) w))
  else w.

(** [stop()]. *)
Definition stop (w : World) : World :=
  let w1 := update_sup decr_use_count w in
  if _active (sup w1) && (_use_count (sup w1) <=? 0) then on_abort w1 else w1.

(** The 'error' and 'exit' handlers set on every spawned process. *)
Definition on_process_error (message : string) (w : World) : World :=
  let w1 := emit (Error message) w in
  if negb (auto_restart (sup w1)) then on_abort w1 else snd (start_ffmpeg w1).

Definition on_process_exit (code : option Z) (w : World) : World :=
  let w1 := emit (Exit code) w in
  if negb (auto_restart (sup w1)) then on_abort w1 else snd (start_ffmpeg w1).

(** The 'tick' handler of the keepalive timer; the answer is dropped. *)
Definition on_tick (w : World) : World :=
  match _session (sup w) with
  | Some s => request (KeepaliveSession (token s)) w
  | None => w
  end.

Definition mark_exited (p : ChildProcess) : ChildProcess :=
  mkProc (spawnfile p) (spawnargs p) true (killed p) (stdin_written p).

(** ** Runs *)

(** What can happen to a supervisor: calls of its two public methods, and
    the deliveries the event loop makes to it. *)
Inductive event :=
| CallStart
| WatchResolved (r : option PlayerSession)
| CheckFires
| CallStop
| ProcessExit (pid : nat) (code : option Z)
| ProcessError (pid : nat) (message : string)
| TimerTick (tid : nat)
| DeleteResolved (ok : bool)
| FileWritten (p : string)
| StdinWriteFailed (message : string).

(** One event.  A delivery nothing is waiting for (no suspended [start], no
    such process, a destroyed timer) changes nothing. *)
Definition step (e : event) (w : World) : World :=
  match e with
  | CallStart => snd (start_call w)
  | WatchResolved r =>
      match pending_starts w with
      | O => w
      | S n => snd (start_resume r (set_pending_starts n w))
      end
  | CheckFires =>
      match pending_polls w with
      | O => w
      | S _ => check_fires w
      end
  | CallStop => stop w
  | ProcessExit pid code =>
      match procs w !! pid with
      | Some p =>
          if exited p then w
          else on_process_exit code (set_procs (alter mark_exited pid (procs w)) w)
      | None => w
      end
  | ProcessError pid message =>
      match procs w !! pid with
      | Some _ => on_process_error message w
      | None => w
      end
  | TimerTick tid =>
      match timers w !! tid with
      | Some tm => if destroyed tm then w else on_tick w
      | None => w
      end
  | DeleteResolved _ =>
      match pending_aborts w with
      | O => w
      | S n => abort_finish (set_pending_aborts n w)
      end
  | FileWritten p => set_fs (write_file p (fs w)) w
  | StdinWriteFailed message => emit (Error message) w
  end.

Definition run (evs : list event) (w : World) : World :=
  fold_left (fun w e => step e w) evs w.

(** ** Construction *)

(** The constructor: [None] when wiping an existing directory raises.  The
    directory is wiped and made again, then [full_path] is pointed at the
    playlist inside it. *)
Definition construct (id device_channel output_path filename : string)
    (auto_restart : bool) (ffmpeg : string) (f : FileSystem)
  : option (LiveTranscoder * FileSystem) :=
  let dir := resolve output_path id in
  let wiped :=
    if existsSync dir f then rmSync dir f else Some f in
  match wiped with
  | None => None
  | Some f1 =>
      let f2 := mkdirSync dir f1 in
      Some (mkLT id device_channel output_path filename auto_restart ffmpeg
                 None None 0 false (resolve dir filename) None,
            f2)
  end.

(** The world around a supervisor that has just been constructed. *)
Definition fresh_world (t : LiveTranscoder) (f : FileSystem) : World :=
  mkWorld t [] [] f [] [] 0 0 0.

(** ** Observations *)

Definition use_count (w : World) : Z := _use_count (sup w).
Definition active (w : World) : bool := _active (sup w).

Definition is_live (p : ChildProcess) : bool := negb (exited p).
Definition live_processes (w : World) : nat :=
  length (List.filter is_live (procs w)).

Definition is_ready (s : Signal) : bool :=
  match s with Ready => true | _ => false end.
Definition ready_count (w : World) : nat :=
  length (List.filter is_ready (emitted w)).

Definition is_watch (c : DeviceCall) : bool :=
  match c with WatchChannel _ => true | _ => false end.
Definition watch_requests (w : World) : nat :=
  length (List.filter is_watch (device_log w)).

(** Idle: nobody uses the supervisor, it is not active, it holds no process
    and no process of an earlier activation is still running. *)
Definition idle (w : World) : Prop :=
  _use_count (sup w) = 0 /\ _active (sup w) = false /\ process (sup w) = None
  /\ live_processes w = 0%nat.

(** ** Scenarios *)

(** The first [start()] of an activation: the call, the device's answer [s],
    and [k] polls that do not find the playlist yet. *)
Definition first_start (s : PlayerSession) (k : nat) : list event :=
  [CallStart; WatchResolved (Some s)] ++ repeat CheckFires k.

(** The external tool writes the playlist and the next poll sees it. *)
Definition playlist_observed (w : World) : list event :=
  [FileWritten (_full_path (sup w)); CheckFires].

Definition is_delete_resolved (e : event) : bool :=
  match e with DeleteResolved _ => true | _ => false end.

(** The teardown that [stop()] sets off: the call and, when there was a
    session to delete, the answer to its deletion, with the events [mid]
    delivered while that answer is awaited. *)
Definition teardown (mid : list event) (ok : bool) (w : World) : list event :=
  CallStop :: match _session (sup w) with
              | Some _ => mid ++ [DeleteResolved ok]
              | None => []
              end.

(** What no event changes: where the output directory is, and whether the
    filesystem lets it be removed. *)
Definition same_place (w w' : World) : Prop :=
  output_path (sup w') = output_path (sup w)
  /\ id (sup w') = id (sup w)
  /\ rm_fault (fs w') = rm_fault (fs w).

(** Every [stop()] of the run finds the use count at one or more. *)
Fixpoint stops_matched (evs : list event) (w : World) : Prop :=
  match evs with
  | [] => True
  | e :: evs' => (e = CallStop -> 1 <= use_count w) /\ stops_matched evs' (step e w)
  end.

(** The states a supervisor can be in: some run from its construction. *)
Definition reachable (w : World) : Prop :=
  exists ident channel out name restart ffmpeg f0 t f evs,
    construct ident channel out name restart ffmpeg f0 = Some (t, f)
    /\ w = run evs (fresh_world t f).

(** The keepalive timer the supervisor holds. *)
Definition current_timer (w : World) : option Timer :=
  match timer (sup w) with
  | Some tid => timers w !! tid
  | None => None
  end.


(** *** Concrete supervisors for the examples *)

Definition example_fs : FileSystem := mkFS ∅ false.

Definition example_world : World :=
  match construct "f00d" "C1" "/srv/streams" "stream.m3u8" true "/usr/bin/ffmpeg"
                  example_fs with
  | Some (t, f) => fresh_world t f
  | None => fresh_world (mkLT "" "" "" "" true "" None None 0 false "" None) example_fs
  end.

Definition example_session : PlayerSession :=
  mkSession "tok-1" 60 "http://192.168.1.20:8887/stream/pl.m3u8?tok-1".

Definition other_session : PlayerSession :=
  mkSession "tok-2" 60 "http://192.168.1.20:8887/stream/pl.m3u8?tok-2".

Definition short_lease_session : PlayerSession :=
  mkSession "tok-3" 30 "http://192.168.1.20:8887/stream/pl.m3u8?tok-3".

(** An active supervisor with one user. *)
Definition example_active_world : World :=
  run (first_start example_session 2 ++ playlist_observed example_world)
      example_world.

(** The same, on a filesystem that refuses removals. *)
Definition example_active_world_rm_fault : World :=
  set_fs (mkFS (entries (fs example_active_world)) true) example_active_world.


(** ** The relative path *)

(** [s] without its first [n] characters. *)
Fixpoint skip (n : nat) (s : string) : string :=
  match n, s with
  | O, _ => s
  | S n', String _ s' => skip n' s'
  | S _, EmptyString => EmptyString
  end.

(** [s.replace(pat, rep)] with a string pattern and a replacement free of
    [$]: the leftmost occurrence of [pat] is replaced, and only that one. *)
Fixpoint replace (pat rep s : string) : string :=
  if String.prefix pat s then rep +:+ skip (String.length pat) s
  else match s with
       | EmptyString => EmptyString
       | String c s' => String c (replace pat rep s')
       end.

(** The getter [relative_path]. *)
Definition relative_path (t : LiveTranscoder) : string :=
  if String.eqb (id t) "" then ""
  else replace "//" "/" (output_path t +:+ "/" +:+ id t +:+ "/" +:+ filename t).

(** A supervisor whose [output_path] ends in a slash and holds a doubled
    slash further left. *)
Definition example_slashes : LiveTranscoder :=
  mkLT "f00d" "C1" "/srv//streams/" "stream.m3u8" true "/usr/bin/ffmpeg"
       None None 0 false "/srv/streams/f00d/stream.m3u8" None.

(** ** Digests

    [createHash('sha256')], [createHash('md5')] and [createHmac('md5', key)]
    of Node's [crypto], on byte sequences; a string is hashed through its
    bytes.  Words are 32-bit, held in [Z] with the wrap-around written out. *)

Fixpoint bytes_of_string (s : string) : list Z :=
  match s with
  | EmptyString => []
  | String c s' => Z.of_N (Ascii.N_of_ascii c) :: bytes_of_string s'
  end.

Definition hex_digit (d : Z) : Ascii.ascii :=
  Ascii.ascii_of_N (Z.to_N (if d <? 10 then 48 + d else 87 + d)).

(** [digest('hex')]: two lower-case digits per byte. *)
Definition hex_of_bytes (bs : list Z) : string :=
  fold_right (fun b s => String (hex_digit (b / 16)) (String (hex_digit (b mod 16)) s))
             EmptyString bs.

(** [toUpperCase()] on the letters a to z. *)
Definition upper_char (c : Ascii.ascii) : Ascii.ascii :=
  let n := Ascii.N_of_ascii c in
  if ((97 <=? n) && (n <=? 122))%N then Ascii.ascii_of_N (n - 32) else c.

Fixpoint toUpperCase (s : string) : string :=
  match s with
  | EmptyString => EmptyString
  | String c s' => String (upper_char c) (toUpperCase s')
  end.

Definition wrap32 (x : Z) : Z := x mod 4294967296.
Definition not32 (x : Z) : Z := Z.lxor x 4294967295.

(** The bytes of [x], least significant first, [n] of them. *)
Fixpoint le_bytes (n : nat) (x : Z) : list Z :=
  match n with
  | O => []
  | S n' => x mod 256 :: le_bytes n' (x / 256)
  end.

Definition be_bytes (n : nat) (x : Z) : list Z := rev (le_bytes n x).

Definition le_word (bs : list Z) : Z := fold_right (fun b acc => b + 256 * acc) 0 bs.
Definition be_word (bs : list Z) : Z := fold_left (fun acc b => 256 * acc + b) bs 0.

(** A list cut into pieces of [n] (the last one may be shorter); [fuel]
    bounds the number of pieces. *)
Fixpoint chunks {A} (fuel n : nat) (l : list A) : list (list A) :=
  match fuel, l with
  | O, _ | _, [] => []
  | S fuel', _ => take n l :: chunks fuel' n (drop n l)
  end.

(** The padding both digests share: a 1 bit, zeros up to 56 modulo 64
    bytes, then the bit length in 8 bytes as [len_bytes] lays it out. *)
Definition pad (len_bytes : Z -> list Z) (msg : list Z) : list Z :=
  let l := Z.of_nat (length msg) in
  msg ++ [128] ++ repeat 0 (Z.to_nat ((55 - l) mod 64)) ++ len_bytes (8 * l).

Module SHA256.

Definition rotr (n x : Z) : Z :=
  Z.lor (Z.shiftr x n) (wrap32 (Z.shiftl x (32 - n))).

Definition Ch (x y z : Z) : Z := Z.lxor (Z.land x y) (Z.land (not32 x) z).
Definition Maj (x y z : Z) : Z :=
  Z.lxor (Z.lxor (Z.land x y) (Z.land x z)) (Z.land y z).
Definition Sum0 (x : Z) : Z := Z.lxor (Z.lxor (rotr 2 x) (rotr 13 x)) (rotr 22 x).
Definition Sum1 (x : Z) : Z := Z.lxor (Z.lxor (rotr 6 x) (rotr 11 x)) (rotr 25 x).
Definition sig0 (x : Z) : Z := Z.lxor (Z.lxor (rotr 7 x) (rotr 18 x)) (Z.shiftr x 3).
Definition sig1 (x : Z) : Z := Z.lxor (Z.lxor (rotr 17 x) (rotr 19 x)) (Z.shiftr x 10).

Definition round_constants : list Z :=
  [1116352408; 1899447441; 3049323471; 3921009573; 961987163; 1508970993;
   2453635748; 2870763221; 3624381080; 310598401; 607225278; 1426881987;
   1925078388; 2162078206; 2614888103; 3248222580; 3835390401; 4022224774;
   264347078; 604807628; 770255983; 1249150122; 1555081692; 1996064986;
   2554220882; 2821834349; 2952996808; 3210313671; 3336571891; 3584528711;
   113926993; 338241895; 666307205; 773529912; 1294757372; 1396182291;
   1695183700; 1986661051; 2177026350; 2456956037; 2730485921; 2820302411;
   3259730800; 3345764771; 3516065817; 3600352804; 4094571909; 275423344;
   430227734; 506948616; 659060556; 883997877; 958139571; 1322822218;
   1537002063; 1747873779; 1955562222; 2024104815; 2227730452; 2361852424;
   2428436474; 2756734187; 3204031479; 3329325298].

Definition initial : list Z :=
  [1779033703; 3144134277; 1013904242; 2773480762;
   1359893119; 2600822924; 528734635; 1541459225].

(** The message schedule: 16 words of the block, then 48 derived ones. *)
Definition schedule (block : list Z) : list Z :=
  fold_left
    (fun W t =>
       W ++ [wrap32 (sig1 (nth (t - 2) W 0) + nth (t - 7) W 0
                     + sig0 (nth (t - 15) W 0) + nth (t - 16) W 0)])
    (seq 16 48) block.

Definition round (st : list Z) (kw : Z * Z) : list Z :=
  match st with
  | [a; b; c; d; e; f; g; h] =>
      let t1 := h + Sum1 e + Ch e f g + fst kw + snd kw in
      let t2 := Sum0 a + Maj a b c in
      [wrap32 (t1 + t2); a; b; c; wrap32 (d + t1); e; f; g]
  | _ => st
  end.

Definition compress (st block : list Z) : list Z :=
  let st' := fold_left round (combine round_constants (schedule block)) st in
  map (fun p => wrap32 (fst p + snd p)) (combine st st').

Definition digest (msg : list Z) : list Z :=
  let padded := pad (be_bytes 8) msg in
  let words := map be_word (chunks (length padded) 4 padded) in
  let st := fold_left compress (chunks (length words) 16 words) initial in
  concat (map (be_bytes 4) st).

Definition hex (s : string) : string := hex_of_bytes (digest (bytes_of_string s)).

End SHA256.

Module MD5.

Definition rotl (n x : Z) : Z :=
  Z.lor (wrap32 (Z.shiftl x n)) (Z.shiftr x (32 - n)).

Definition sines : list Z :=
  [3614090360; 3905402710; 606105819; 3250441966; 4118548399; 1200080426;
   2821735955; 4249261313; 1770035416; 2336552879; 4294925233; 2304563134;
   1804603682; 4254626195; 2792965006; 1236535329; 4129170786; 3225465664;
   643717713; 3921069994; 3593408605; 38016083; 3634488961; 3889429448;
   568446438; 3275163606; 4107603335; 1163531501; 2850285829; 4243563512;
   1735328473; 2368359562; 4294588738; 2272392833; 1839030562; 4259657740;
   2763975236; 1272893353; 4139469664; 3200236656; 681279174; 3936430074;
   3572445317; 76029189; 3654602809; 3873151461; 530742520; 3299628645;
   4096336452; 1126891415; 2878612391; 4237533241; 1700485571; 2399980690;
   4293915773; 2240044497; 1873313359; 4264355552; 2734768916; 1309151649;
   4149444226; 3174756917; 718787259; 3951481745].

Definition shifts : list Z :=
  concat (map (fun row => row ++ row ++ row ++ row)
              [[7; 12; 17; 22]; [5; 9; 14; 20]; [4; 11; 16; 23]; [6; 10; 15; 21]]).

Definition initial : list Z := [1732584193; 4023233417; 2562383102; 271733878].

Definition mix (i : nat) (b c d : Z) : Z * nat :=
  if (i <? 16)%nat then (Z.lor (Z.land b c) (Z.land (not32 b) d), i)
  else if (i <? 32)%nat then
    (Z.lor (Z.land d b) (Z.land (not32 d) c), ((5 * i + 1) mod 16)%nat)
  else if (i <? 48)%nat then
    (Z.lxor (Z.lxor b c) d, ((3 * i + 5) mod 16)%nat)
  else (Z.lxor c (Z.lor b (not32 d)), ((7 * i) mod 16)%nat).

Definition round (block : list Z) (st : list Z) (i : nat) : list Z :=
  match st with
  | [a; b; c; d] =>
      let (f, g) := mix i b c d in
      let x := wrap32 (f + a + nth i sines 0 + nth g block 0) in
      [d; wrap32 (b + rotl (nth i shifts 0) x); b; c]
  | _ => st
  end.

Definition compress (st block : list Z) : list Z :=
  let st' := fold_left (round block) (seq 0 64) st in
  map (fun p => wrap32 (fst p + snd p)) (combine st st').

Definition digest (msg : list Z) : list Z :=
  let padded := pad (le_bytes 8) msg in
  let words := map le_word (chunks (length padded) 4 padded) in
  let st := fold_left compress (chunks (length words) 16 words) initial in
  concat (map (le_bytes 4) st).

Definition hex (s : string) : string := hex_of_bytes (digest (bytes_of_string s)).

(** HMAC over MD5, whose block is 64 bytes. *)
Definition hmac (key msg : list Z) : list Z :=
  let k0 := if (64 <? length key)%nat then digest key else key in
  let k := k0 ++ repeat 0 (64 - length k0) in
  digest (map (Z.lxor 92) k ++ digest (map (Z.lxor 54) k ++ msg)).

Definition hmac_hex (key msg : string) : string :=
  hex_of_bytes (hmac (bytes_of_string key) (bytes_of_string msg)).

End MD5.

(** ** The registry *)

Definition dquote : string := String (Ascii.ascii_of_nat 34) EmptyString.
Definition backslash : string := String (Ascii.ascii_of_nat 92) EmptyString.
Definition newline : string := String (Ascii.ascii_of_nat 10) EmptyString.

(** How [JSON.stringify] writes one character of a string value. *)
Definition json_escape (c : Ascii.ascii) : string :=
  let n := Z.of_N (Ascii.N_of_ascii c) in
  if n =? 8 then backslash +:+ "b"
  else if n =? 9 then backslash +:+ "t"
  else if n =? 10 then backslash +:+ "n"
  else if n =? 12 then backslash +:+ "f"
  else if n =? 13 then backslash +:+ "r"
  else if n =? 34 then backslash +:+ dquote
  else if n =? 92 then backslash +:+ backslash
  else if n <? 32 then backslash +:+ "u00" +:+ hex_of_bytes [n]
  else String c EmptyString.

Fixpoint json_escape_all (s : string) : string :=
  match s with
  | EmptyString => EmptyString
  | String c s' => json_escape c +:+ json_escape_all s'
  end.

(** [JSON.stringify] of a string. *)
Definition json_string (s : string) : string :=
  dquote +:+ json_escape_all s +:+ dquote.

(** [JSON.stringify({ server_id: info.server_id, channel_id })]. *)
Definition json_identity (server channel : string) : string :=
  "{" +:+ json_string "server_id" +:+ ":" +:+ json_string server
  +:+ "," +:+ json_string "channel_id" +:+ ":" +:+ json_string channel +:+ "}".

(** The registry key computed by [LiveTranscoder.instance]. *)
Definition fingerprint (server channel : string) : string :=
  SHA256.hex (json_identity server channel).

(** [Tablo.Info], of which only [server_id] is read here. *)
Record Info := mkInfo { server_id : string }.

(** How a call ends: with a value, with the [Error] the code throws, or
    with what a filesystem call raised. *)
Inductive outcome (A : Type) :=
| Returned (a : A)
| Thrown (message : string)
| Raised.
Arguments Returned {A} a.
Arguments Thrown {A} message.
Arguments Raised {A}.

(** The static map [instances], the supervisors it points to (an object is
    its position in [heap]), and the filesystem their constructors work on. *)
Record Registry := mkRegistry {
  instances : gmap string nat;
  heap : list LiveTranscoder;
  disk : FileSystem
}.

(** One call of [LiveTranscoder.instance]: what [device.info()] answered
    and the arguments, the optional ones with their defaults. *)
Record Lookup := mkLookup {
  l_info : option Info;
  l_channel_id : string;
  l_output_path : string;
  l_filename : option string;
  l_auto_restart : option bool;
  l_ffmpeg : string
}.

(** [LiveTranscoder.instance], from the answer of [device.info()] on. *)
Definition instance (c : Lookup) (r : Registry) : outcome nat * Registry :=
  match l_info c with
  | None => (Thrown "Failed to retrieve device information", r)
  | Some info =>
      let key := fingerprint (server_id info) (l_channel_id c) in
      match instances r !! key with
      | Some a => (Returned a, r)
      | None =>
          match construct key (l_channel_id c) (l_output_path c)
                          (default "stream.m3u8" (l_filename c))
                          (default true (l_auto_restart c))
                          (l_ffmpeg c) (disk r) with
          | None => (Raised, r)
          | Some (t, f) =>
              let a := length (heap r) in
              (Returned a, mkRegistry (<[key := a]> (instances r)) (heap r ++ [t]) f)
          end
      end
  end.

Definition lookups (calls : list Lookup) (r : Registry) : Registry :=
  fold_left (fun r c => snd (instance c r)) calls r.

Definition empty_registry : Registry := mkRegistry ∅ [] example_fs.

Definition example_lookup : Lookup :=
  mkLookup (Some (mkInfo "D1")) "C1" "/srv/streams" None None "/usr/bin/ffmpeg".

Definition example_lookup_again : Lookup :=
  mkLookup (Some (mkInfo "D1")) "C1" "/tmp/elsewhere" (Some "live.m3u8")
           (Some false) "/usr/bin/ffmpeg".

Definition example_lookup_other : Lookup :=
  mkLookup (Some (mkInfo "D1")) "C2" "/srv/streams" None None "/usr/bin/ffmpeg".

(** ** The request signature *)

Record Credentials := mkCredentials {
  access_key : string;
  secret_key : string
}.

(** The two headers [generateAuthHeader] returns. *)
Record AuthHeader := mkAuthHeader {
  Authorization : string;
  Date : string
}.

(** [generateAuthHeader], with [date] for what [new Date().toUTCString()]
    gives at the call; [body] is [None] when the argument is left out. *)
Definition generateAuthHeader (date method path : string) (body : option string)
    (keys : Credentials) : AuthHeader :=
  let body := default "" body in
  let body_hash := if String.eqb body "" then "" else MD5.hex body in
  let message :=
    method +:+ newline +:+ path +:+ newline +:+ body_hash +:+ newline +:+ date in
  let hmac_signature := toUpperCase (MD5.hmac_hex (secret_key keys) message) in
  mkAuthHeader ("tablo:" +:+ access_key keys +:+ ":" +:+ hmac_signature) date.

(** The headers as the specification words them: the digest of the body
    stands in the signed message whatever the body is. *)
Definition spec_auth_header (date method path body : string)
    (keys : Credentials) : AuthHeader :=
  mkAuthHeader
    ("tablo:" +:+ access_key keys +:+ ":"
     +:+ toUpperCase
           (MD5.hmac_hex (secret_key keys)
              (method +:+ newline +:+ path +:+ newline +:+ MD5.hex body
               +:+ newline +:+ date)))
    date.

Definition example_keys : Credentials := mkCredentials "ak-0001" "sk-0001".
Definition example_date : string := "Mon, 02 Nov 2026 10:00:00 GMT".

(** ** More about the supervisor *)

(** The fields the class declares [readonly], and [full_path], which only
    the constructor sets. *)
Definition same_config (t t' : LiveTranscoder) : Prop :=
  id t' = id t /\ channel_id t' = channel_id t
  /\ output_path t' = output_path t /\ filename t' = filename t
  /\ auto_restart t' = auto_restart t /\ ffmpeg_path t' = ffmpeg_path t
  /\ _full_path t' = _full_path t.

(** A process as [start_ffmpeg] spawns them for supervisor [t]: the
    external tool, told to read some playlist URL and to write to the
    supervisor's playlist. *)
Definition spawned_for (t : LiveTranscoder) (p : ChildProcess) : Prop :=
  spawnfile p = ffmpeg_path t
  /\ exists url, spawnargs p = ffmpeg_args url (_full_path t).

(** The timer [tid] has been destroyed. *)
Definition timer_destroyed (tid : nat) (w : World) : Prop :=
  destroyed <$> timers w !! tid = Some true.






(** ** More about the registry *)

(** A registry with nothing in it, on the filesystem [f]. *)
Definition new_registry (f : FileSystem) : Registry := mkRegistry ∅ [] f.

(** The keys of the registry and the supervisors it has built answer each
    other: a key leads to a supervisor that has it as id, and a supervisor
    is registered under its id. *)
Definition registry_sound (r : Registry) : Prop :=
  (forall k a, instances r !! k = Some a ->
               exists t, heap r !! a = Some t /\ id t = k)
  /\ (forall a t, heap r !! a = Some t -> instances r !! id t = Some a).

(** The fingerprint a lookup computes, when the device answered. *)
Definition lookup_key (c : Lookup) : option string :=
  (fun info => fingerprint (server_id info) (l_channel_id c)) <$> l_info c.

(** ** The device API: clock, airings and batches *)

(** The getter [currentHour], for a clock that reads [clock] milliseconds. *)
Record Hour := mkHour {
  h_now : Z;
  h_start : Z;
  h_end : Z
}.

Definition currentHour (clock : Z) : Hour :=
  let now := clock / 1000 * 1000 in
  let start := now / (60 * 60 * 1000) * 60 * 60 * 1000 in
  mkHour now start (start + 60 * 60 * 1000).





(** The loop of [airings] that cuts the list of paths into the batches it
    requests: [slice(0, 50)] and [slice(50)] until nothing is left. *)
Definition batches (paths : list string) : list (list string) :=
  chunks (length paths) 50 paths.

(** ** The device API: the client and its requests *)

From Stdlib Require Import DecimalString.

(** [s.includes(pat)], [s.endsWith(suffix)] and [s.slice(0, -1)]. *)
Fixpoint includes (pat s : string) : bool :=
  String.prefix pat s
  || match s with
     | EmptyString => false
     | String _ s' => includes pat s'
     end.

Fixpoint endsWith (suffix s : string) : bool :=
  String.eqb s suffix
  || match s with
     | EmptyString => false
     | String _ s' => endsWith suffix s'
     end.

Fixpoint drop_last (s : string) : string :=
  match s with
  | EmptyString => EmptyString
  | String c EmptyString => EmptyString
  | String c s' => String c (drop_last s')
  end.

(** How a template literal writes a whole number. *)
Definition string_of_Z (z : Z) : string := NilZero.string_of_int (Z.to_int z).

(** The options of the constructor: the five that may be left out, and the
    credentials. *)
Record Options := mkOptions {
  o_ssl : option bool;
  o_device_id : option string;
  o_timeout : option Z;
  o_request_logging : option bool;
  o_port : option Z;
  o_access_key : string;
  o_secret_key : string
}.

(** A [TabloAPI] object: its fields, and the options after the constructor
    has filled them in. *)
Record TabloAPI := mkTabloAPI {
  device_id : string;
  base_uri : string;
  keys : Credentials;
  timeout : Z;
  ssl : bool;
  request_logging : bool;
  port : Z
}.

(** The constructor; [uuid] is what [uuid()] would give. *)
Definition new_TabloAPI (uuid hostOrUri : string) (o : Options) : TabloAPI :=
  let ssl0 := default false (o_ssl o) in
  let device := default uuid (o_device_id o) in
  let time := default 2000 (o_timeout o) in
  let logging := default false (o_request_logging o) in
  let port0 := default 8887 (o_port o) in
  let credentials := mkCredentials (o_access_key o) (o_secret_key o) in
  if includes "://" hostOrUri then
    let uri := if endsWith "/" hostOrUri then drop_last hostOrUri else hostOrUri in
    mkTabloAPI device uri credentials time (String.prefix "https" uri) logging port0
  else
    mkTabloAPI device
      ((if ssl0 then "https" else "http") +:+ "://" +:+ hostOrUri +:+ ":"
       +:+ string_of_Z port0)
      credentials time ssl0 logging port0.

(** *** Query strings *)

(** [URLSearchParams]: the list of its pairs. *)
Definition remove_key (k : string) (l : list (string * string))
  : list (string * string) :=
  List.filter (fun kv => negb (String.eqb (fst kv) k)) l.

(** [qs.set(k, v)]: the first pair named [k] takes the value and the others
    named [k] go; without such a pair, one is appended. *)
Fixpoint qs_set (k v : string) (l : list (string * string))
  : list (string * string) :=
  match l with
  | [] => [(k, v)]
  | (k', v') :: l' =>
      if String.eqb k' k then (k, v) :: remove_key k l'
      else (k', v') :: qs_set k v l'
  end.

(** The characters the form-urlencoded serializer leaves as they are. *)
Definition is_form_safe (c : Ascii.ascii) : bool :=
  let n := Ascii.N_of_ascii c in
  ((48 <=? n) && (n <=? 57) || (65 <=? n) && (n <=? 90)
   || (97 <=? n) && (n <=? 122)
   || (n =? 42) || (n =? 45) || (n =? 46) || (n =? 95))%N.

Definition percent : Ascii.ascii := Ascii.ascii_of_nat 37.
Definition ampersand : Ascii.ascii := Ascii.ascii_of_nat 38.
Definition plus : Ascii.ascii := Ascii.ascii_of_nat 43.
Definition equals : Ascii.ascii := Ascii.ascii_of_nat 61.

Definition upper_hex_digit (d : N) : Ascii.ascii :=
  Ascii.ascii_of_N (if (d <? 10)%N then 48 + d else 55 + d).

(** One byte of a name or value, serialized. *)
Definition form_encode_char (c : Ascii.ascii) : string :=
  let n := Ascii.N_of_ascii c in
  if is_form_safe c then String c EmptyString
  else if (n =? 32)%N then "+"
  else String percent (String (upper_hex_digit (n / 16))
                     (String (upper_hex_digit (n mod 16)) EmptyString)).

Fixpoint form_encode (s : string) : string :=
  match s with
  | EmptyString => EmptyString
  | String c s' => form_encode_char c +:+ form_encode s'
  end.

(** [qs.toString()]. *)
Fixpoint qs_toString (l : list (string * string)) : string :=
  match l with
  | [] => EmptyString
  | [(k, v)] => form_encode k +:+ "=" +:+ form_encode v
  | (k, v) :: l' => form_encode k +:+ "=" +:+ form_encode v +:+ "&" +:+ qs_toString l'
  end.

(** The query string [execute] builds from [Object.entries(params)]: a
    value that is [undefined] or [null] goes in as the empty string. *)
Definition query_of (params : list (string * option string))
  : list (string * string) :=
  fold_left (fun qs kv => qs_set (fst kv) (default "" (snd kv)) qs) params [].

(** What [execute] hands to [fetch]. *)
Record Request := mkRequest {
  r_url : string;
  r_headers : AuthHeader;
  r_json : option string;
  r_method : string;
  r_timeout : Z
}.

Definition sends_body (method : string) : bool :=
  String.eqb method "PATCH" || String.eqb method "POST" || String.eqb method "PUT".

(** [execute], up to the call of [fetch].  [payload] is the payload as
    [JSON.stringify] writes it, [None] when there is none; [date] is the
    clock as [toUTCString] prints it. *)
Definition execute (api : TabloAPI) (date method endpoint : string)
    (params : list (string * option string)) (payload : option string)
    (credentials : Credentials) (time : Z) : Request :=
  let headers := generateAuthHeader date method endpoint payload credentials in
  let qs := query_of params in
  let url := base_uri api +:+ endpoint in
  let url := if (0 <? length params)%nat
             then url +:+ "?" +:+ qs_toString qs else url in
  mkRequest url headers (if sends_body method then payload else None) method time.

(** The three helpers through which every request goes. *)
Definition api_get (api : TabloAPI) (date endpoint : string)
    (params : list (string * option string)) (time : Z) : Request :=
  execute api date "GET" endpoint params None (keys api) time.

Definition api_delete (api : TabloAPI) (date endpoint : string)
    (params : list (string * option string)) (time : Z) : Request :=
  execute api date "DELETE" endpoint params None (keys api) time.

Definition api_post (api : TabloAPI) (date endpoint : string)
    (params : list (string * option string)) (payload : option string) (time : Z)
  : Request :=
  execute api date "POST" endpoint params payload (keys api) time.

(** A predicate on every character of a string, and a count of one. *)
Fixpoint string_forall (P : Ascii.ascii -> bool) (s : string) : bool :=
  match s with
  | EmptyString => true
  | String c s' => P c && string_forall P s'
  end.

Fixpoint count_char (c : Ascii.ascii) (s : string) : nat :=
  match s with
  | EmptyString => O
  | String c' s' => (if Ascii.eqb c' c then 1 else 0) + count_char c s'
  end.

Definition is_upper_hex (c : Ascii.ascii) : bool :=
  let n := Ascii.N_of_ascii c in
  ((48 <=? n) && (n <=? 57) || (65 <=? n) && (n <=? 70))%N.

(** The characters of a serialized query string. *)
Definition is_query_char (c : Ascii.ascii) : bool :=
  is_form_safe c
  || Ascii.eqb c plus || Ascii.eqb c percent || Ascii.eqb c equals
  || Ascii.eqb c ampersand.

Definition example_api : TabloAPI :=
  new_TabloAPI "00000000-0000-4000-8000-000000000000" "192.168.1.20"
    (mkOptions None None None None None "ak-0001" "sk-0001").

(** ** The device: watch sessions *)

(** [Tablo.Channel]: the fields read here. *)
Record Channel := mkChannel {
  channel_identifier : string;
  call_sign : string;
  major : Z;
  minor : Z
}.

(** How a request ends for the helpers [get], [post] and [delete]: with the
    body of an answer that is [ok], with an answer that is not [ok], or with
    [fetch] failing (a timeout, a refused connection). *)
Inductive reply (A : Type) :=
| Answer (body : A)
| NotOk
| Failed.
Arguments Answer {A} body.
Arguments NotOk {A}.
Arguments Failed {A}.

(** A session as the device object returns it: the answer of the device,
    and the channel the object knows for its token. *)
Record WatchSession := mkWatchSession {
  ws_session : PlayerSession;
  ws_channel : option Channel
}.

(** A [Tablo] object: the client it extends, and its map from session
    tokens to channels. *)
Record Tablo := mkTablo {
  api : TabloAPI;
  session_channels : gmap string Channel
}.

Definition set_session_channels (m : gmap string Channel) (d : Tablo) : Tablo :=
  mkTablo (api d) m.

(** [channel(channel_id)], on the list [channels()] returned. *)
Definition channel (channels : list Channel) (channel_id : string) : option Channel :=
  List.find (fun c => String.eqb (channel_identifier c) channel_id) channels.

Definition token_of (tokenOrPlayerSession : string + PlayerSession) : string :=
  match tokenOrPlayerSession with
  | inl tok => tok
  | inr s => token s
  end.

Definition lh_param : list (string * option string) := [("lh", None)].

(** [watchChannel]: [info] and [channels] are what [info()] and
    [channels()] returned, [answer] how the watch request ended, if it was
    made; [device_info] is the description of the client, defaults filled
    in, as [JSON.stringify] writes it.  The result is the session, the
    object afterwards and the request that was sent, if any. *)
Definition watchChannel (date : string) (info : option Info) (channels : list Channel)
    (device_info : string) (answer : reply PlayerSession)
    (channel_id : string) (time : Z) (d : Tablo)
  : option WatchSession * Tablo * option Request :=
  match info, channel channels channel_id with
  | Some _, Some ch =>
      let request :=
        api_post (api d) date ("/guide/channels/" +:+ channel_id +:+ "/watch")
                 lh_param (Some device_info) time in
      match answer with
      | Answer response =>
          (Some (mkWatchSession response (Some ch)),
           set_session_channels (<[token response := ch]> (session_channels d)) d,
           Some request)
      | _ => (None, d, Some request)
      end
  | _, _ => (None, d, None)
  end.

(** [keepaliveSession]. *)
Definition keepaliveSession (date : string) (answer : reply PlayerSession)
    (tokenOrPlayerSession : string + PlayerSession) (time : Z) (d : Tablo)
  : option WatchSession * Request :=
  let tok := token_of tokenOrPlayerSession in
  let ch := session_channels d !! tok in
  let request :=
    api_post (api d) date ("/player/sessions/" +:+ tok +:+ "/keepalive")
             lh_param None time in
  match answer with
  | Answer response => (Some (mkWatchSession response ch), request)
  | _ => (None, request)
  end.

(** [session]. *)
Definition session (date : string) (answer : reply PlayerSession)
    (tokenOrPlayerSession : string + PlayerSession) (time : Z) (d : Tablo)
  : option WatchSession * Request :=
  let tok := token_of tokenOrPlayerSession in
  let ch := session_channels d !! tok in
  let request :=
    api_get (api d) date ("/player/sessions/" +:+ tok) lh_param time in
  match answer with
  | Answer response => (Some (mkWatchSession response ch), request)
  | _ => (None, request)
  end.

(** [deleteSession]: the answer is the [ok] of the response. *)
Definition deleteSession (date : string) (answer : option bool)
    (tokenOrPlayerSession : string + PlayerSession) (time : Z) (d : Tablo)
  : bool * Tablo * Request :=
  let tok := token_of tokenOrPlayerSession in
  let request :=
    api_delete (api d) date ("/player/sessions/" +:+ tok) lh_param time in
  match answer with
  | Some true => (true, set_session_channels (delete tok (session_channels d)) d, request)
  | Some false => (false, d, request)
  | None => (false, d, request)
  end.

(** What can be done with the sessions of a device object, for runs. *)
Inductive session_call :=
| Watch (info : option Info) (channels : list Channel) (device_info : string)
        (answer : reply PlayerSession) (channel_id : string)
| Keepalive (answer : reply PlayerSession) (tok : string + PlayerSession)
| Lookup_session (answer : reply PlayerSession) (tok : string + PlayerSession)
| Delete (answer : option bool) (tok : string + PlayerSession).

Definition session_step (date : string) (time : Z) (c : session_call) (d : Tablo)
  : Tablo :=
  match c with
  | Watch info channels device_info answer channel_id =>
      snd (fst (watchChannel date info channels device_info answer channel_id time d))
  | Keepalive _ _ => d
  | Lookup_session _ _ => d
  | Delete answer tok => snd (fst (deleteSession date answer tok time d))
  end.

(** Whether a call can change what the object knows for the token [tok]. *)
Definition touches (tok : string) (c : session_call) : bool :=
  match c with
  | Watch _ _ _ (Answer response) _ => String.eqb (token response) tok
  | Delete (Some true) t => String.eqb (token_of t) tok
  | _ => false
  end.

Definition example_channel : Channel := mkChannel "C1" "KXYZ" 5 1.
Definition example_device : Tablo := mkTablo example_api ∅.

Definition session_run (date : string) (time : Z) (calls : list session_call)
    (d : Tablo) : Tablo :=
  fold_left (fun d c => session_step date time c d) calls d.

(** ** The Lighthouse client *)

(** The token the login returns. *)
Record LToken := mkLToken {
  access_token : string;
  token_type : string;
  is_verified : bool
}.

(** A [Lighthouse] object. *)
Record Lighthouse := mkLighthouse {
  email : string;
  password : string;
  lh_timeout : Z;
  lh_token : option LToken;
  context_token : string
}.

Definition set_lh_token (t : option LToken) (l : Lighthouse) : Lighthouse :=
  mkLighthouse (email l) (password l) (lh_timeout l) t (context_token l).

Definition authenticated (l : Lighthouse) : bool :=
  match lh_token l with Some _ => true | None => false end.

Definition lighthouse_base_uri : string := "https://lighthousetv.ewscloud.com/api/v2".

(** How the login ends: ok with a token, not ok, or with [fetch] failing;
    and how a request to an endpoint ends: ok with a body, not ok with a
    status, or with [fetch] failing. *)
Inductive login_reply :=
| LoginOk (t : LToken)
| LoginRefused
| LoginFailed.

Inductive fetch_reply :=
| FetchOk (json : string)
| FetchNotOk (url : string) (status : Z) (status_text : string)
| FetchFailed.

(** What the network answers: to the logins, in their order, and to the
    requests to endpoints, in theirs. *)
Record Network := mkNetwork {
  login_at : nat -> login_reply;
  fetch_at : nat -> fetch_reply
}.

(** A request to an endpoint as [execute] makes it. *)
Record LRequest := mkLRequest {
  lr_url : string;
  lr_authorization : string;
  lr_lighthouse : option string;
  lr_json : option string;
  lr_method : string
}.

Inductive net_call :=
| Login (mail pass : string)
| Fetch (request : LRequest).

(** [authenticate]. *)
Definition authenticate (answer : login_reply) (l : Lighthouse) : bool * Lighthouse :=
  match answer with
  | LoginOk t => (true, set_lh_token (Some t) l)
  | LoginRefused => (false, set_lh_token None l)
  | LoginFailed => (false, l)
  end.

(** The headers and the URL of a request; a token that is missing prints as
    [undefined]. *)
Definition lh_authorization (t : option LToken) : string :=
  match t with
  | Some t => token_type t +:+ " " +:+ access_token t
  | None => "undefined undefined"
  end.

Definition lh_url (endpoint : string) (params : list (string * string)) : string :=
  let qs := fold_left (fun qs kv => qs_set (fst kv) (snd kv) qs) params [] in
  if includes "://" endpoint then endpoint +:+ "?" +:+ qs_toString qs
  else lighthouse_base_uri +:+ endpoint +:+ "?" +:+ qs_toString qs.

Definition lh_request (l : Lighthouse) (method endpoint : string)
    (params : list (string * string)) (payload token : option string) : LRequest :=
  mkLRequest (lh_url endpoint params) (lh_authorization (lh_token l))
             (match token with
              | Some t => if String.eqb t "" then None else Some t
              | None => None
              end)
             (if sends_body method then payload else None) method.

Definition status_error (url : string) (status : Z) (status_text : string) : string :=
  url +:+ " [" +:+ string_of_Z status +:+ "] " +:+ status_text.

Definition is_fetch (c : net_call) : bool :=
  match c with Fetch _ => true | Login _ _ => false end.

Definition is_login (c : net_call) : bool :=
  match c with Login _ _ => true | Fetch _ => false end.

Definition fetches (calls : list net_call) : nat := length (List.filter is_fetch calls).
Definition logins (calls : list net_call) : nat := length (List.filter is_login calls).

(** The body of the instance method [execute]; [calls] are the calls made
    so far, and [retry] stands for the method called again with [is_retry]
    set. *)
Definition execute_body (is_retry : bool)
    (retry : Lighthouse -> list net_call -> outcome string * Lighthouse * list net_call)
    (net : Network) (method endpoint : string) (params : list (string * string))
    (payload token : option string) (l : Lighthouse) (calls : list net_call)
  : outcome string * Lighthouse * list net_call :=
  let '(ok, l1, calls1) :=
    match lh_token l with
    | Some _ => (true, l, calls)
    | None =>
        let (ok, l') := authenticate (login_at net (logins calls)) l in
        (ok, l', calls ++ [Login (email l) (password l)])
    end in
  if negb ok then (Thrown "Failed to authenticate with Lighthouse API", l1, calls1)
  else
    let request := lh_request l1 method endpoint params payload token in
    let calls2 := calls1 ++ [Fetch request] in
    match fetch_at net (fetches calls1) with
    | FetchOk json => (Returned json, l1, calls2)
    | FetchFailed => (Raised, l1, calls2)
    | FetchNotOk url status text =>
        if (status =? 401) && negb is_retry then
          let (again, l2) := authenticate (login_at net (logins calls2)) l1 in
          let calls3 := calls2 ++ [Login (email l1) (password l1)] in
          if again then retry l2 calls3
          else (Thrown (status_error url status text), l2, calls3)
        else (Thrown (status_error url status text), l1, calls2)
    end.

(** [execute] with [is_retry] set makes no further call of itself. *)
Definition execute_retry (net : Network) (method endpoint : string)
    (params : list (string * string)) (payload token : option string)
    (l : Lighthouse) (calls : list net_call)
  : outcome string * Lighthouse * list net_call :=
  execute_body true (fun l' calls' => (Raised, l', calls'))
               net method endpoint params payload token l calls.

(** [execute] as the other methods call it. *)
Definition lh_execute (net : Network) (method endpoint : string)
    (params : list (string * string)) (payload token : option string)
    (l : Lighthouse)
  : outcome string * Lighthouse * list net_call :=
  execute_body false (execute_retry net method endpoint params payload token)
               net method endpoint params payload token l [].

(** The requests to endpoints among [calls]. *)
Definition requests (calls : list net_call) : list LRequest :=
  flat_map (fun c => match c with
                     | Fetch r => [r]
                     | Login _ _ => []
                     end) calls.

(** How [execute] ends on the answer to its last request when it does not
    call itself again. *)
Definition final_outcome (answer : fetch_reply) : outcome string :=
  match answer with
  | FetchOk json => Returned json
  | FetchNotOk url status text => Thrown (status_error url status text)
  | FetchFailed => Raised
  end.

Definition example_lighthouse : Lighthouse :=
  mkLighthouse "user@example.org" "secret" 2000
               (Some (mkLToken "stale" "Bearer" true)) "".

(** A network that rejects the first request and accepts a new login. *)
Definition example_network : Network :=
  mkNetwork (fun _ => LoginOk (mkLToken "fresh" "Bearer" true))
            (fun n => match n with
                      | O => FetchNotOk "https://lighthousetv.ewscloud.com/api/v2/account/?"
                                        401 "Unauthorized"
                      | S _ => FetchOk "{}"
                      end).

(** ** Reading back what [JSON.stringify] wrote *)

(** The value of a lower-case hexadecimal digit. *)
Definition hex_value (c : Ascii.ascii) : option Z :=
  let n := Z.of_N (Ascii.N_of_ascii c) in
  if (48 <=? n) && (n <=? 57) then Some (n - 48)
  else if (97 <=? n) && (n <=? 102) then Some (n - 87)
  else None.

(** A reader for the first character of a string value written by
    [json_escape_all]: the character and what follows it.  It is not part of
    the program; it serves to show that the writer loses nothing. *)
Definition json_read_char (s : string) : option (Ascii.ascii * string) :=
  match s with
  | EmptyString => None
  | String h t =>
      if Z.of_N (Ascii.N_of_ascii h) =? 92 then
        match t with
        | EmptyString => None
        | String k t' =>
            let n := Z.of_N (Ascii.N_of_ascii k) in
            if n =? 98 then Some (Ascii.ascii_of_nat 8, t')
            else if n =? 116 then Some (Ascii.ascii_of_nat 9, t')
            else if n =? 110 then Some (Ascii.ascii_of_nat 10, t')
            else if n =? 102 then Some (Ascii.ascii_of_nat 12, t')
            else if n =? 114 then Some (Ascii.ascii_of_nat 13, t')
            else if n =? 117 then
              match t' with
              | String _ (String _ (String x (String y t''))) =>
                  match hex_value x, hex_value y with
                  | Some a, Some b =>
                      Some (Ascii.ascii_of_N (Z.to_N (16 * a + b)), t'')
                  | _, _ => None
                  end
              | _ => None
              end
            else Some (k, t')
        end
      else Some (h, t)
  end.

(** * Properties *)

(** Name the fields of a world and of its supervisor. *)
Ltac open_world w := destruct w as [[] ? ? ? ? ? ? ? ?]; simpl in *.

(** ** Facts about runs *)

Lemma run_app (a b : list event) (w : World) : run (a ++ b) w = run b (run a w).
Proof. unfold run. apply fold_left_app. Qed.

Lemma run_cons (e : event) (evs : list event) (w : World) :
  run (e :: evs) w = run evs (step e w).
Proof. reflexivity. Qed.

Lemma existsSync_write_file (p : string) (f : FileSystem) :
  existsSync p (write_file p f) = true.
Proof. unfold existsSync, write_file; simpl. apply bool_decide_eq_true. set_solver. Qed.

(** While the playlist is missing, the poll only sets itself again. *)
Lemma run_polls_waiting (k : nat) (w : World) :
  existsSync (_full_path (sup w)) (fs w) = false ->
  run (repeat CheckFires k) w = w.
Proof.
  intros Hno. induction k as [|k IH]; [reflexivity|].
  simpl repeat. rewrite run_cons.
  assert (Hstep : step CheckFires w = w).
  { simpl. destruct (pending_polls w); [reflexivity|].
    unfold check_fires. now rewrite Hno. }
  now rewrite Hstep.
Qed.

(** A call of [start()] on an active supervisor: one more user, one 'ready',
    and nothing else. *)
Lemma run_joins (j : nat) (w : World) :
  _active (sup w) = true ->
  run (repeat CallStart j) w =
  mkWorld (set_use_count (_use_count (sup w) + Z.of_nat j) (sup w))
          (procs w) (timers w) (fs w) (emitted w ++ repeat Ready j)
          (device_log w) (pending_starts w) (pending_polls w) (pending_aborts w).
Proof.
  revert w. induction j as [|j IH]; intros w Hact.
  - open_world w.
    unfold set_use_count; simpl. now rewrite Z.add_0_r, app_nil_r.
  - simpl repeat. rewrite run_cons.
    assert (Hstep : step CallStart w = emit Ready (update_sup incr_use_count w)).
    { simpl. unfold start_call. now rewrite Hact. }
    rewrite Hstep, IH by (simpl; exact Hact).
    open_world w.
    unfold set_use_count; simpl.
    rewrite <- app_assoc. simpl. f_equal. f_equal. lia.
Qed.

Lemma live_processes_app (ps qs : list ChildProcess) :
  length (List.filter is_live (ps ++ qs)) =
  (length (List.filter is_live ps) + length (List.filter is_live qs))%nat.
Proof. now rewrite List.filter_app, length_app. Qed.

(** C1: from an idle supervisor, a first [start()] that obtains a session,
    followed once the playlist has been seen by [n - 1] further calls, with
    no [stop()] in between, leaves the use count at [n] and one process
    running.  'ready' goes out once for each call: not before the playlist is
    seen for the first one, and within the call itself for each later one,
    which returns true at once.  The device was asked for a watch session
    once, by the first call. *)
Theorem start_n_times_shares_one_process
    (w : World) (s : PlayerSession) (k n : nat) :
  idle w ->
  existsSync (_full_path (sup w)) (fs w) = false ->
  (1 <= n)%nat ->
  let starting := run (first_start s k) w in
  let activated := run (playlist_observed w) starting in
  let joined j := run (repeat CallStart j) activated in
  use_count (joined (n - 1)%nat) = Z.of_nat n
  /\ live_processes (joined (n - 1)%nat) = 1%nat
  /\ active starting = false
  /\ emitted starting = emitted w
  /\ active activated = true
  /\ emitted activated = emitted w ++ [Ready]
  /\ (forall j, fst (start_call (joined j)) = Some true
                /\ emitted (joined (S j)) = emitted (joined j) ++ [Ready])
  /\ ready_count (joined (n - 1)%nat) = (ready_count w + n)%nat
  /\ (forall j, device_log (joined j)
                = device_log w ++ [WatchChannel (channel_id (sup w))]).
Proof.
  intros (Huc & Hact & Hproc & Hlive) Hno Hn starting activated joined.
  assert (Hstarting : starting =
    mkWorld (mkLT (id (sup w)) (channel_id (sup w)) (output_path (sup w))
                  (filename (sup w)) (auto_restart (sup w)) (ffmpeg_path (sup w))
                  (Some (length (procs w))) (Some (length (timers w)))
                  1 false (_full_path (sup w)) (Some s))
            (procs w ++ [mkProc (ffmpeg_path (sup w))
                            (ffmpeg_args (playlist_url s) (_full_path (sup w)))
                            false false []])
            (timers w ++ [mkTimer (keepalive_interval s) false])
            (fs w) (emitted w)
            (device_log w ++ [WatchChannel (channel_id (sup w))])
            (pending_starts w) (S (pending_polls w)) (pending_aborts w)).
  { subst starting. unfold first_start. rewrite run_app.
    rewrite run_polls_waiting.
    - open_world w. subst. reflexivity.
    - open_world w. subst. exact Hno. }
  assert (Hactivated : activated =
    mkWorld (mkLT (id (sup w)) (channel_id (sup w)) (output_path (sup w))
                  (filename (sup w)) (auto_restart (sup w)) (ffmpeg_path (sup w))
                  (Some (length (procs w))) (Some (length (timers w)))
                  1 true (_full_path (sup w)) (Some s))
            (procs w ++ [mkProc (ffmpeg_path (sup w))
                            (ffmpeg_args (playlist_url s) (_full_path (sup w)))
                            false false []])
            (timers w ++ [mkTimer (keepalive_interval s) false])
            (write_file (_full_path (sup w)) (fs w)) (emitted w ++ [Ready])
            (device_log w ++ [WatchChannel (channel_id (sup w))])
            (pending_starts w) (pending_polls w) (pending_aborts w)).
  { subst activated. rewrite Hstarting. unfold playlist_observed.
    rewrite !run_cons. simpl. unfold check_fires. simpl.
    now rewrite existsSync_write_file. }
  assert (Hjoined : forall j, joined j =
    mkWorld (mkLT (id (sup w)) (channel_id (sup w)) (output_path (sup w))
                  (filename (sup w)) (auto_restart (sup w)) (ffmpeg_path (sup w))
                  (Some (length (procs w))) (Some (length (timers w)))
                  (1 + Z.of_nat j) true (_full_path (sup w)) (Some s))
            (procs w ++ [mkProc (ffmpeg_path (sup w))
                            (ffmpeg_args (playlist_url s) (_full_path (sup w)))
                            false false []])
            (timers w ++ [mkTimer (keepalive_interval s) false])
            (write_file (_full_path (sup w)) (fs w))
            ((emitted w ++ [Ready]) ++ repeat Ready j)
            (device_log w ++ [WatchChannel (channel_id (sup w))])
            (pending_starts w) (pending_polls w) (pending_aborts w)).
  { intros j. subst joined. simpl. rewrite run_joins.
    - rewrite Hactivated. reflexivity.
    - rewrite Hactivated. reflexivity. }
  repeat apply conj.
  - rewrite Hjoined. unfold use_count. simpl. lia.
  - rewrite Hjoined. unfold live_processes. simpl.
    rewrite live_processes_app. unfold live_processes in Hlive.
    rewrite Hlive. reflexivity.
  - rewrite Hstarting. reflexivity.
  - rewrite Hstarting. reflexivity.
  - rewrite Hactivated. reflexivity.
  - rewrite Hactivated. reflexivity.
  - intros j. rewrite !Hjoined. split; [reflexivity|]. simpl.
    rewrite <- !app_assoc. f_equal. simpl. f_equal. apply repeat_cons.
  - rewrite Hjoined. unfold ready_count. simpl.
    rewrite !List.filter_app, !length_app. simpl.
    assert (Hrep : forall m, length (List.filter is_ready (repeat Ready m)) = m).
    { induction m; simpl; congruence. }
    rewrite Hrep. lia.
  - intros j. rewrite Hjoined. reflexivity.
Qed.

Lemma start_n_times_shares_one_process_witness :
  use_count (run (repeat CallStart 2)
               (run (playlist_observed example_world)
                  (run (first_start example_session 2) example_world))) = 3.
Proof.
  refine (proj1 (start_n_times_shares_one_process
                   example_world example_session 2 3 _ _ _)).
  - unfold idle. repeat apply conj; reflexivity.
  - vm_compute. reflexivity.
  - lia.
Defined.

(** ** The use count *)

Lemma use_count_on_stopped (w : World) : use_count (on_stopped w) = use_count w.
Proof.
  unfold on_stopped, use_count.
  destruct (existsSync _ (fs w)); [destruct (rmSync _ (fs w))|]; reflexivity.
Qed.

Lemma use_count_abort_finish (w : World) : use_count (abort_finish w) = use_count w.
Proof. unfold abort_finish. now rewrite use_count_on_stopped. Qed.

Lemma use_count_on_abort (w : World) : use_count (on_abort w) = use_count w.
Proof.
  unfold on_abort.
  destruct (process (sup w)) as [pid|] eqn:Hp; [|reflexivity].
  open_world w.
  destruct timer0, _session0; simpl;
    try rewrite use_count_abort_finish; reflexivity.
Qed.

Lemma use_count_start_ffmpeg (w : World) :
  use_count (snd (start_ffmpeg w)) = use_count w.
Proof. unfold start_ffmpeg. destruct (_session (sup w)); reflexivity. Qed.

Lemma use_count_start_call (w : World) :
  use_count (snd (start_call w))
  = if _active (sup w) then use_count w + 1 else use_count w.
Proof. unfold start_call. destruct (_active (sup w)); reflexivity. Qed.

Lemma use_count_start_resume (r : option PlayerSession) (w : World) :
  use_count (snd (start_resume r w))
  = match r with Some _ => use_count w + 1 | None => use_count w end.
Proof. destruct r; reflexivity. Qed.

Lemma use_count_stop (w : World) : use_count (stop w) = use_count w - 1.
Proof.
  unfold stop.
  destruct (_active _ && _); [rewrite use_count_on_abort|]; reflexivity.
Qed.

Lemma use_count_process_handlers (w : World) :
  (forall m, use_count (on_process_error m w) = use_count w)
  /\ (forall c, use_count (on_process_exit c w) = use_count w).
Proof.
  split; intros x; unfold on_process_error, on_process_exit;
    (destruct (negb _);
     [rewrite use_count_on_abort | rewrite use_count_start_ffmpeg]);
    reflexivity.
Qed.

(** Only [stop()] lowers the use count, and it lowers it by one. *)
Lemma use_count_step (e : event) (w : World) :
  (e = CallStop /\ use_count (step e w) = use_count w - 1)
  \/ (e <> CallStop /\ use_count w <= use_count (step e w)).
Proof.
  destruct e; simpl; [right|right|right|left|right..]; (split; [congruence|]).
  - rewrite use_count_start_call. destruct (_active (sup w)); lia.
  - destruct (pending_starts w); [lia|].
    rewrite use_count_start_resume. destruct r; unfold use_count; simpl; lia.
  - destruct (pending_polls w); [lia|]. unfold check_fires.
    destruct (existsSync _ _); unfold use_count; simpl; lia.
  - apply use_count_stop.
  - destruct (procs w !! pid) as [p|]; [|lia]. destruct (exited p); [lia|].
    rewrite (proj2 (use_count_process_handlers _)). unfold use_count; simpl; lia.
  - destruct (procs w !! pid) as [p|]; [|lia].
    rewrite (proj1 (use_count_process_handlers _)). lia.
  - destruct (timers w !! tid) as [tm|]; [|lia]. destruct (destroyed tm); [lia|].
    unfold on_tick. destruct (_session (sup w)); unfold use_count; simpl; lia.
  - destruct (pending_aborts w); [lia|].
    rewrite use_count_abort_finish. unfold use_count; simpl; lia.
  - unfold use_count; simpl; lia.
  - unfold use_count; simpl; lia.
Qed.

Lemma stops_matched_app (a b : list event) (w : World) :
  stops_matched (a ++ b) w -> stops_matched a w /\ stops_matched b (run a w).
Proof.
  revert w. induction a as [|e a IH]; intros w H; simpl in *.
  - split; [exact I | exact H].
  - destruct H as [He Hrest]. destruct (IH _ Hrest) as [Ha Hb].
    repeat split; assumption.
Qed.

Lemma use_count_nonneg_run (evs : list event) (w : World) :
  0 <= use_count w -> stops_matched evs w -> 0 <= use_count (run evs w).
Proof.
  revert w. induction evs as [|e evs IH]; intros w H0 Hm; [exact H0|].
  destruct Hm as [He Hrest]. rewrite run_cons. apply IH; [|exact Hrest].
  destruct (use_count_step e w) as [[-> Heq]|[Hne Hle]].
  - specialize (He eq_refl). lia.
  - lia.
Qed.

(** C3 (as amended): [stop()] always subtracts one from the use count,
    whatever the count is; along a run in which every [stop()] finds the
    count at one or more, the count is non-negative after every event. *)
Theorem use_count_nonneg_when_stops_matched
    (evs : list event) (w : World) :
  0 <= use_count w ->
  stops_matched evs w ->
  (forall before after, evs = before ++ after -> 0 <= use_count (run before w))
  /\ (forall w', use_count (stop w') = use_count w' - 1).
Proof.
  intros H0 Hm. split; [|exact use_count_stop].
  intros before after ->.
  apply use_count_nonneg_run; [exact H0|].
  exact (proj1 (stops_matched_app _ _ _ Hm)).
Qed.

Lemma use_count_nonneg_when_stops_matched_witness :
  0 <= use_count (run [CallStart; WatchResolved (Some example_session); CallStop]
                      example_world).
Proof.
  refine (proj1 (use_count_nonneg_when_stops_matched
            [CallStart; WatchResolved (Some example_session); CallStop]
            example_world _ _) _ [] _).
  - vm_compute. discriminate.
  - simpl. split; [discriminate|]. split; [discriminate|]. split; [|exact I].
    intros _. vm_compute. discriminate.
  - now rewrite app_nil_r.
Defined.

(** C3 (as stated) fails: a [stop()] on a supervisor that was never started
    takes the use count from 0 to -1. *)
Lemma stop_at_zero_goes_negative :
  use_count example_world = 0
  /\ ~ (0 <= use_count (run [CallStop] example_world)).
Proof. split; [reflexivity|]. vm_compute. intros H. now apply H. Qed.

(** ** Starting *)



(** C4 (as amended): a [start()] that obtains a session with lease
    [keepalive] seconds builds the keepalive timer with the interval
    [(keepalive - 30) * 1000] milliseconds, as it is, without a lower bound:
    the interval is positive exactly when the lease is longer than 30
    seconds, and for a lease of 60 seconds it is 30000 ms. *)
Theorem keepalive_timer_interval (w : World) (s : PlayerSession) :
  _active (sup w) = false ->
  let w' := run [CallStart; WatchResolved (Some s)] w in
  current_timer w' = Some (mkTimer ((keepalive s - 30) * 1000) false)
  /\ (0 < (keepalive s - 30) * 1000 <-> 30 < keepalive s)
  /\ (keepalive s = 60 -> current_timer w' = Some (mkTimer 30000 false)).
Proof.
  intros Hact w'.
  assert (Ht : current_timer w' = Some (mkTimer ((keepalive s - 30) * 1000) false)).
  { subst w'. rewrite !run_cons. simpl. unfold start_call. rewrite Hact. simpl.
    unfold current_timer. simpl.
    rewrite lookup_app_r by reflexivity.
    now rewrite Nat.sub_diag. }
  repeat apply conj.
  - exact Ht.
  - lia.
  - lia.
  - intros H60. rewrite Ht, H60. reflexivity.
Qed.

Lemma keepalive_timer_interval_witness :
  current_timer (run [CallStart; WatchResolved (Some example_session)] example_world)
  = Some (mkTimer 30000 false).
Proof.
  refine (proj2 (proj2 (keepalive_timer_interval example_world example_session _)) _);
    reflexivity.
Defined.

(** C4 (as stated) fails: with a lease of 30 seconds the timer is built with
    the interval 0, which is not positive. *)
Lemma keepalive_interval_not_clamped :
  exists tm,
    current_timer (run [CallStart; WatchResolved (Some short_lease_session)]
                       example_world) = Some tm
    /\ ~ (0 < interval_ms tm).
Proof. exists (mkTimer 0 false). split; [reflexivity|]. simpl. lia. Qed.

(** Whatever the supervisor has been through, a [start()] that finds it
    not active asks the device for a session. *)
Lemma start_call_requests_when_not_active (w : World) :
  _active (sup w) = false ->
  watch_requests (step CallStart w) = S (watch_requests w).
Proof.
  intros Hact. simpl. unfold start_call. rewrite Hact.
  unfold watch_requests. simpl.
  rewrite List.filter_app, length_app. simpl. lia.
Qed.

(** C5: two calls of [start()], the second made before the first has been
    answered.  Both find the supervisor not active, so both ask the device
    for a session, and both answers spawn a process: the handle holds the
    second one and the first keeps running with nothing pointing at it. *)
Theorem concurrent_starts_request_two_sessions :
  let w := run [CallStart; CallStart;
                WatchResolved (Some example_session);
                WatchResolved (Some other_session)] example_world in
  watch_requests w = 2%nat
  /\ live_processes w = 2%nat
  /\ length (timers w) = 2%nat
  /\ process (sup w) = Some 1%nat
  /\ (exited <$> procs w !! 0%nat) = Some false
  /\ use_count w = 2.
Proof. vm_compute. repeat apply conj; reflexivity. Qed.

(** ** Restarting *)





Lemma lookup_alter_spawnargs (f : ChildProcess -> ChildProcess)
    (i j : nat) (l : list ChildProcess) :
  (forall p, spawnargs (f p) = spawnargs p) ->
  spawnargs <$> alter f i l !! j = spawnargs <$> l !! j.
Proof.
  intros Hf. destruct (decide (i = j)) as [->|Hne].
  - rewrite list_lookup_alter_eq. destruct (l !! j); simpl; [|reflexivity].
    now rewrite Hf.
  - now rewrite list_lookup_alter_ne.
Qed.






(** ** Teardown *)

Lemma existsSync_rmSync (dir : string) (f f' : FileSystem) :
  rmSync dir f = Some f' -> existsSync dir f' = false.
Proof.
  unfold rmSync. destruct (rm_fault f); [discriminate|].
  intros [= <-]. unfold existsSync. simpl.
  apply bool_decide_eq_false. rewrite elem_of_filter.
  intros [Hin _]. unfold is_within in Hin.
  rewrite String.eqb_refl in Hin. discriminate.
Qed.

(** The 'stopped' handler: when removals do not raise, the directory is gone
    by the time 'stopped' goes out. *)
Lemma on_stopped_removes (w : World) :
  rm_fault (fs w) = false ->
  existsSync (resolve (output_path (sup w)) (id (sup w))) (fs (on_stopped w))
  = false
  /\ emitted (on_stopped w) = emitted w ++ [Stopped]
  /\ sup (on_stopped w) = sup w.
Proof.
  intros Hok. unfold on_stopped.
  destruct (existsSync _ (fs w)) eqn:Hex.
  - destruct (rmSync _ (fs w)) as [f'|] eqn:Hrm.
    + simpl. split; [|split; reflexivity].
      exact (existsSync_rmSync _ _ _ Hrm).
    + unfold rmSync in Hrm. rewrite Hok in Hrm. discriminate.
  - simpl. split; [exact Hex|split; reflexivity].
Qed.

Lemma same_place_refl (w : World) : same_place w w.
Proof. unfold same_place. auto. Qed.

Lemma same_place_trans (w1 w2 w3 : World) :
  same_place w1 w2 -> same_place w2 w3 -> same_place w1 w3.
Proof. unfold same_place. intros (?&?&?) (?&?&?). repeat split; congruence. Qed.

Lemma same_place_on_stopped (w : World) : same_place w (on_stopped w).
Proof.
  unfold same_place, on_stopped.
  destruct (existsSync _ (fs w)); [|simpl; auto].
  unfold rmSync. destruct (rm_fault (fs w)) eqn:Hf; simpl; auto.
Qed.

Lemma same_place_abort_finish (w : World) : same_place w (abort_finish w).
Proof.
  unfold abort_finish.
  apply (same_place_trans _ (update_sup (set_active false) w)).
  - unfold same_place. simpl. auto.
  - apply same_place_on_stopped.
Qed.

Lemma same_place_on_abort (w : World) : same_place w (on_abort w).
Proof.
  unfold on_abort. destruct (process (sup w)) as [pid|]; [|apply same_place_refl].
  open_world w. destruct timer0, _session0; cbn -[abort_finish];
    try (unfold same_place; simpl; tauto);
    (eapply same_place_trans; [|apply same_place_abort_finish]);
    unfold same_place; simpl; tauto.
Qed.

Lemma same_place_start_ffmpeg (w : World) : same_place w (snd (start_ffmpeg w)).
Proof.
  unfold start_ffmpeg. destruct (_session (sup w)); unfold same_place; simpl; auto.
Qed.

Lemma same_place_step (e : event) (w : World) : same_place w (step e w).
Proof.
  destruct e; simpl.
  - unfold start_call. destruct (_active (sup w)); unfold same_place; simpl; auto.
  - destruct (pending_starts w); [apply same_place_refl|].
    destruct r; unfold same_place; simpl; auto.
  - destruct (pending_polls w); [apply same_place_refl|]. unfold check_fires.
    destruct (existsSync _ _); unfold same_place; simpl; auto.
  - unfold stop. destruct (_ && _).
    + eapply same_place_trans; [|apply same_place_on_abort].
      unfold same_place. simpl. auto.
    + unfold same_place. simpl. auto.
  - destruct (procs w !! pid) as [p|]; [|apply same_place_refl].
    destruct (exited p); [apply same_place_refl|].
    unfold on_process_exit. destruct (negb _).
    + eapply same_place_trans; [|apply same_place_on_abort].
      unfold same_place. simpl. auto.
    + eapply same_place_trans; [|apply same_place_start_ffmpeg].
      unfold same_place. simpl. auto.
  - destruct (procs w !! pid) as [p|]; [|apply same_place_refl].
    unfold on_process_error. destruct (negb _).
    + eapply same_place_trans; [|apply same_place_on_abort].
      unfold same_place. simpl. auto.
    + eapply same_place_trans; [|apply same_place_start_ffmpeg].
      unfold same_place. simpl. auto.
  - destruct (timers w !! tid) as [tm|]; [|apply same_place_refl].
    destruct (destroyed tm); [apply same_place_refl|]. unfold on_tick.
    destruct (_session (sup w)); unfold same_place; simpl; auto.
  - destruct (pending_aborts w); [apply same_place_refl|].
    eapply same_place_trans; [|apply same_place_abort_finish].
    unfold same_place. simpl. auto.
  - unfold same_place. simpl. auto.
  - unfold same_place. simpl. auto.
Qed.

Lemma pending_aborts_on_abort (w : World) :
  (pending_aborts w <= pending_aborts (on_abort w))%nat.
Proof.
  unfold on_abort. destruct (process (sup w)) as [pid|]; [|lia].
  open_world w. destruct timer0, _session0; simpl; try lia;
    unfold abort_finish, on_stopped; simpl;
    (destruct (existsSync _ _); [destruct (rmSync _ _)|]); simpl; lia.
Qed.

(** Only the answer to a deletion takes a suspended abort handler away. *)
Lemma pending_aborts_step (e : event) (w : World) :
  is_delete_resolved e = false ->
  (pending_aborts w <= pending_aborts (step e w))%nat.
Proof.
  intros He. destruct e; try discriminate; simpl.
  - unfold start_call. destruct (_active (sup w)); simpl; lia.
  - destruct (pending_starts w); [lia|]. destruct r; simpl; lia.
  - destruct (pending_polls w); [lia|]. unfold check_fires.
    destruct (existsSync _ _); simpl; lia.
  - unfold stop. destruct (_ && _); [|simpl; lia].
    etransitivity; [|apply pending_aborts_on_abort]. simpl. lia.
  - destruct (procs w !! pid) as [p|]; [|lia]. destruct (exited p); [lia|].
    unfold on_process_exit. destruct (negb _).
    + etransitivity; [|apply pending_aborts_on_abort]. simpl. lia.
    + unfold start_ffmpeg. simpl. destruct (_session (sup w)); simpl; lia.
  - destruct (procs w !! pid) as [p|]; [|lia].
    unfold on_process_error. destruct (negb _).
    + etransitivity; [|apply pending_aborts_on_abort]. simpl. lia.
    + unfold start_ffmpeg. simpl. destruct (_session (sup w)); simpl; lia.
  - destruct (timers w !! tid) as [tm|]; [|lia]. destruct (destroyed tm); [lia|].
    unfold on_tick. destruct (_session (sup w)); simpl; lia.
  - lia.
  - lia.
Qed.

Lemma awaiting_deletion_run (mid : list event) (w : World) :
  forallb (fun e => negb (is_delete_resolved e)) mid = true ->
  same_place w (run mid w)
  /\ (pending_aborts w <= pending_aborts (run mid w))%nat.
Proof.
  revert w. induction mid as [|e mid IH]; intros w Hmid.
  - split; [apply same_place_refl | simpl; lia].
  - simpl in Hmid. apply andb_prop in Hmid as [He Hmid].
    apply negb_true_iff in He.
    rewrite run_cons. destruct (IH (step e w) Hmid) as [Hp Hn]. split.
    + eapply same_place_trans; [apply same_place_step | exact Hp].
    + pose proof (pending_aborts_step e w He). lia.
Qed.

(** A [stop()] by the last user of an active supervisor that holds its
    process: the abort handler runs, to its end when there is no session and
    up to the deletion of the session otherwise. *)
Lemma stop_last_user (w : World) (pid : nat) :
  _active (sup w) = true ->
  process (sup w) = Some pid ->
  _use_count (sup w) <= 1 ->
  same_place w (stop w)
  /\ match _session (sup w) with
     | Some _ => (1 <= pending_aborts (stop w))%nat
     | None =>
         exists w0, stop w = on_stopped w0 /\ same_place w w0
                    /\ _active (sup w0) = false
     end.
Proof.
  intros Hact Hproc Hcount.
  assert (Hleb : (_use_count (sup w) - 1 <=? 0) = true) by (apply Z.leb_le; lia).
  split.
  - change (stop w) with (step CallStop w). apply same_place_step.
  - open_world w. subst.
    destruct _session0 as [s|], timer0 as [tid|];
      unfold stop, on_abort; cbn -[Z.sub Z.leb on_stopped];
      rewrite Hleb; cbn -[on_stopped]; try lia;
      unfold abort_finish; eexists; (split; [reflexivity|]);
      unfold same_place; simpl; auto.
Qed.

(** C8 (as amended): on an active supervisor that holds its process, a
    [stop()] that brings the use count to 0 or below runs the teardown to
    its end, whatever is delivered while the deletion of the session is
    awaited: 'stopped' is emitted and the supervisor is no longer active; and
    when the removal of the output directory does not raise, that directory
    does not exist at that point. *)
Theorem teardown_removes_output_directory
    (w : World) (pid : nat) (mid : list event) (ok : bool) :
  _active (sup w) = true ->
  process (sup w) = Some pid ->
  _use_count (sup w) <= 1 ->
  forallb (fun e => negb (is_delete_resolved e)) mid = true ->
  rm_fault (fs w) = false ->
  let w' := run (teardown mid ok w) w in
  (exists before, emitted w' = before ++ [Stopped])
  /\ existsSync (resolve (output_path (sup w)) (id (sup w))) (fs w') = false
  /\ _active (sup w') = false.
Proof.
  intros Hact Hproc Hcount Hmid Hok w'. subst w'. unfold teardown.
  destruct (stop_last_user w pid Hact Hproc Hcount) as [Hplace Hstop].
  rewrite run_cons. change (step CallStop w) with (stop w).
  destruct (_session (sup w)) as [s|].
  - rewrite run_app.
    destruct (awaiting_deletion_run mid (stop w) Hmid) as [Hplace' Hn].
    set (w2 := run mid (stop w)) in *.
    pose proof (same_place_trans _ _ _ Hplace Hplace') as (Hout & Hid & Hfault).
    rewrite run_cons. simpl run. simpl step.
    destruct (pending_aborts w2) as [|n] eqn:Hpa; [lia|].
    unfold abort_finish.
    match goal with
    | |- context [on_stopped ?x] =>
        assert (Hx : rm_fault (fs x) = false) by (simpl; congruence);
        destruct (on_stopped_removes x Hx) as (H1 & H2 & H3);
        cbn -[on_stopped] in H1, H2, H3
    end.
    rewrite Hout, Hid in H1. rewrite H1, H2, H3.
    repeat apply conj; [eexists; reflexivity | reflexivity | reflexivity].
  - destruct Hstop as (w0 & Heq & (Hout & Hid & Hfault) & Hact0).
    simpl run. rewrite Heq.
    assert (Hx : rm_fault (fs w0) = false) by congruence.
    destruct (on_stopped_removes w0 Hx) as (H1 & H2 & H3).
    rewrite Hout, Hid in H1. rewrite H1, H2, H3.
    repeat apply conj; [eexists; reflexivity | reflexivity | exact Hact0].
Qed.

Lemma teardown_removes_output_directory_witness :
  existsSync "/srv/streams/f00d"
    (fs (run (teardown [ProcessExit 0%nat None] true example_active_world)
             example_active_world))
  = false.
Proof.
  refine (proj1 (proj2 (teardown_removes_output_directory
                          example_active_world 0%nat [ProcessExit 0%nat None]
                          true _ _ _ _ _))).
  - reflexivity.
  - reflexivity.
  - vm_compute. discriminate.
  - reflexivity.
  - reflexivity.
Defined.

(** C8 (as stated) fails: when the removal raises, the handler swallows
    the error and emits 'stopped' all the same, with the output directory
    still there. *)
Lemma teardown_keeps_directory_when_removal_raises :
  let w := example_active_world_rm_fault in
  let w' := run (teardown [] true w) w in
  _active (sup w) = true
  /\ emitted w' = emitted w ++ [Stopped]
  /\ existsSync (resolve (output_path (sup w)) (id (sup w))) (fs w') <> false.
Proof. vm_compute. repeat apply conj; [reflexivity|reflexivity|discriminate]. Qed.

(** ** The relative path *)

Lemma skip_append (pre s : string) : skip (String.length pre) (pre +:+ s) = s.
Proof. induction pre as [|c pre IH]; simpl; [reflexivity | exact IH]. Qed.

Lemma prefix_append (pat s : string) : String.prefix pat (pat +:+ s) = true.
Proof.
  induction pat as [|c pat IH]; simpl.
  - now destruct s.
  - destruct (Ascii.ascii_dec c c) as [_|Hne]; [exact IH | now elim Hne].
Qed.

Section Replace.

Variables pat rep : string.

(** Where no occurrence starts, nothing is replaced. *)
Lemma replace_none (s : string) :
  (forall j, String.prefix pat (skip j s) = false) -> replace pat rep s = s.
Proof.
  induction s as [|c s IH]; intros Hno.
  - specialize (Hno 0%nat). cbn [skip] in Hno. cbn [replace]. now rewrite Hno.
  - pose proof (Hno 0%nat) as H0. cbn [skip] in H0.
    cbn [replace]. rewrite H0. f_equal. apply IH.
    intros j. exact (Hno (S j)).
Qed.

Lemma replace_head (s : string) :
  String.prefix pat s = true ->
  replace pat rep s = rep +:+ skip (String.length pat) s.
Proof. destruct s; cbn [replace]; intros ->; reflexivity. Qed.

(** The leftmost occurrence is replaced and what follows it is kept. *)
Lemma replace_first_occurrence (pre post : string) :
  (forall j, (j < String.length pre)%nat ->
             String.prefix pat (skip j (pre +:+ pat +:+ post)) = false) ->
  replace pat rep (pre +:+ pat +:+ post) = pre +:+ rep +:+ post.
Proof.
  induction pre as [|c pre IH]; intros Hfirst.
  - change ("" +:+ pat +:+ post) with (pat +:+ post).
    rewrite replace_head by apply prefix_append.
    now rewrite skip_append.
  - pose proof (Hfirst 0%nat ltac:(simpl; lia)) as H0.
    cbn [skip] in H0.
    change (String c pre +:+ pat +:+ post)
      with (String c (pre +:+ pat +:+ post)) in H0 |- *.
    change (String c pre +:+ rep +:+ post)
      with (String c (pre +:+ rep +:+ post)).
    cbn [replace]. rewrite H0.
    f_equal. apply IH. intros j Hj.
    apply (Hfirst (S j)). simpl. lia.
Qed.

End Replace.

(** C10: for a supervisor with a non-empty id, [relative_path] is the string
    [output_path/id/filename] with its leftmost ["//"] turned into ["/"]:
    what stands before that occurrence and what stands after it are returned
    as they are, so a later ["//"] is still there; and a string without
    ["//"] is returned whole. *)
Theorem relative_path_collapses_first_only (t : LiveTranscoder) :
  id t <> "" ->
  let s := output_path t +:+ "/" +:+ id t +:+ "/" +:+ filename t in
  ((forall j, String.prefix "//" (skip j s) = false) -> relative_path t = s)
  /\ (forall pre post,
        s = pre +:+ "//" +:+ post ->
        (forall j, (j < String.length pre)%nat ->
                   String.prefix "//" (skip j s) = false) ->
        relative_path t = pre +:+ "/" +:+ post).
Proof.
  intros Hid s.
  assert (Hrel : relative_path t = replace "//" "/" s).
  { unfold relative_path. destruct (String.eqb_spec (id t) ""); [contradiction|].
    reflexivity. }
  rewrite Hrel. split.
  - apply replace_none.
  - intros pre post Hs Hfirst. rewrite Hs in *.
    now apply replace_first_occurrence.
Qed.

Lemma relative_path_collapses_first_only_witness :
  relative_path example_slashes = "/srv/streams//f00d/stream.m3u8".
Proof.
  refine (proj2 (relative_path_collapses_first_only example_slashes _)
                "/srv" "streams//f00d/stream.m3u8" _ _).
  - discriminate.
  - reflexivity.
  - intros j Hj. simpl in Hj.
    destruct j as [|[|[|[|j]]]]; [reflexivity..|lia].
Defined.

(** ** The digests

    The embedded digests agree with the published test vectors. *)

Example sha256_of_abc :
  SHA256.hex "abc"
  = "ba7816bf8f01cfea414140de5dae2223b00361a396177a9cb410ff61f20015ad".
Proof. vm_compute. reflexivity. Qed.

Example sha256_of_empty :
  SHA256.hex ""
  = "e3b0c44298fc1c149afbf4c8996fb92427ae41e4649b934ca495991b7852b855".
Proof. vm_compute. reflexivity. Qed.

Example md5_of_abc : MD5.hex "abc" = "900150983cd24fb0d6963f7d28e17f72".
Proof. vm_compute. reflexivity. Qed.

Example md5_of_empty : MD5.hex "" = "d41d8cd98f00b204e9800998ecf8427e".
Proof. vm_compute. reflexivity. Qed.

Example hmac_md5_rfc2202_case2 :
  MD5.hmac_hex "Jefe" "what do ya want for nothing?"
  = "750c783e6ab0b503eaa86e310a5db738".
Proof. vm_compute. reflexivity. Qed.

(** ** The registry *)

(** A lookup never removes or redirects an entry. *)
Lemma instance_keeps_entries (c : Lookup) (r : Registry) (k : string) (a : nat) :
  instances r !! k = Some a -> instances (snd (instance c r)) !! k = Some a.
Proof.
  intros Hk. unfold instance.
  destruct (l_info c) as [info|]; [|exact Hk].
  destruct (instances r !! fingerprint _ _) eqn:Hkey; [exact Hk|].
  destruct (construct _ _ _ _ _ _ _) as [[t f]|]; [|exact Hk].
  cbn [snd instances]. rewrite lookup_insert_ne; [exact Hk|].
  intros Heq. rewrite Heq in Hkey. congruence.
Qed.

Lemma lookups_keep_entries (calls : list Lookup) (r : Registry) (k : string) (a : nat) :
  instances r !! k = Some a -> instances (lookups calls r) !! k = Some a.
Proof.
  revert r. induction calls as [|c calls IH]; intros r Hk; [exact Hk|].
  simpl. apply IH. now apply instance_keeps_entries.
Qed.

(** A lookup that returns leaves its supervisor under the fingerprint. *)
Lemma instance_registers (c : Lookup) (r r1 : Registry) (a : nat) :
  instance c r = (Returned a, r1) ->
  exists info, l_info c = Some info
    /\ instances r1 !! fingerprint (server_id info) (l_channel_id c) = Some a.
Proof.
  unfold instance. destruct (l_info c) as [info|]; [|discriminate].
  destruct (instances r !! fingerprint _ _) eqn:Hkey.
  - intros [= <- <-]. exists info. split; [reflexivity | exact Hkey].
  - destruct (construct _ _ _ _ _ _ _) as [[t f]|]; [|discriminate].
    intros [= <- <-]. exists info. split; [reflexivity|].
    cbn [instances]. apply lookup_insert_eq.
Qed.

Lemma instance_hit (c : Lookup) (r : Registry) (info : Info) (a : nat) :
  l_info c = Some info ->
  instances r !! fingerprint (server_id info) (l_channel_id c) = Some a ->
  instance c r = (Returned a, r).
Proof.
  intros Hi Hk. unfold instance. rewrite Hi. cbv beta iota zeta.
  now rewrite Hk.
Qed.

(** A lookup leaves every supervisor already built where it is. *)
Lemma instance_keeps_heap (c : Lookup) (r : Registry) (a : nat) (t : LiveTranscoder) :
  heap r !! a = Some t -> heap (snd (instance c r)) !! a = Some t.
Proof.
  intros Ha. unfold instance.
  destruct (l_info c) as [info|]; [|exact Ha].
  destruct (instances r !! fingerprint _ _); [exact Ha|].
  destruct (construct _ _ _ _ _ _ _) as [[t' f]|]; [|exact Ha].
  cbn [snd heap]. now apply lookup_app_l_Some.
Qed.

(** Every key of the registry leads to a supervisor that carries it as id. *)
Lemma registry_ids (calls : list Lookup) (k : string) (a : nat) :
  instances (lookups calls empty_registry) !! k = Some a ->
  exists t, heap (lookups calls empty_registry) !! a = Some t /\ id t = k.
Proof.
  assert (Hgen : forall r,
    (forall k a, instances r !! k = Some a ->
                 exists t, heap r !! a = Some t /\ id t = k) ->
    forall k a, instances (lookups calls r) !! k = Some a ->
                exists t, heap (lookups calls r) !! a = Some t /\ id t = k).
  { induction calls as [|c calls IH]; intros r Hr; [exact Hr|].
    simpl. apply IH. clear IH. intros k' a' Hk'.
    unfold instance in *.
    destruct (l_info c) as [info|]; [|now apply Hr].
    destruct (instances r !! fingerprint _ _) eqn:Hkey; [now apply Hr|].
    destruct (construct _ _ _ _ _ _ _) as [[t f]|] eqn:Hc; [|now apply Hr].
    cbn [snd instances heap] in *.
    destruct (decide (fingerprint (server_id info) (l_channel_id c) = k'))
      as [Heq|Hne].
    - rewrite Heq in Hk'. rewrite lookup_insert_eq in Hk'.
      injection Hk' as <-. exists t. split.
      + rewrite lookup_app_r by reflexivity. now rewrite Nat.sub_diag.
      + unfold construct in Hc.
        destruct (if existsSync _ _ then _ else _); [|discriminate].
        injection Hc as <- _. exact Heq.
    - rewrite lookup_insert_ne in Hk' by exact Hne.
      destruct (Hr _ _ Hk') as (t0 & Ht0 & Hid). exists t0.
      split; [now apply lookup_app_l_Some | exact Hid]. }
  apply Hgen. intros k0 a0 H0. unfold empty_registry in H0.
  cbn [instances] in H0. now rewrite lookup_empty in H0.
Qed.

(** C2: once a lookup has returned a supervisor, every later lookup for the
    same server id and channel id returns that very object and leaves the
    registry as it is, whatever lookups came in between and whatever the
    other arguments are.  The key is a function of the two ids alone: equal
    ids give equal fingerprints, and for the device "D1" and the channel
    "C1" it is the SHA-256 digest shown. *)
Theorem instance_returns_same_supervisor
    (first again : Lookup) (between : list Lookup) (r r1 : Registry) (a : nat) :
  server_id <$> l_info first = server_id <$> l_info again ->
  l_channel_id first = l_channel_id again ->
  instance first r = (Returned a, r1) ->
  let r2 := lookups between r1 in
  instance again r2 = (Returned a, r2)
  /\ (forall s1 c1 s2 c2, s1 = s2 -> c1 = c2 -> fingerprint s1 c1 = fingerprint s2 c2)
  /\ fingerprint "D1" "C1"
     = "8ee6f895ff46ca640f3c81197ac104d9c366205991d7e405cb03fb3852634d39".
Proof.
  intros Hserver Hchannel Hfirst r2.
  destruct (instance_registers _ _ _ _ Hfirst) as (info & Hinfo & Hkey).
  rewrite Hinfo in Hserver. simpl in Hserver.
  destruct (l_info again) as [info'|] eqn:Hinfo'; [|discriminate].
  simpl in Hserver. injection Hserver as Hserver.
  repeat apply conj.
  - apply (instance_hit again r2 info' a Hinfo').
    subst r2. apply lookups_keep_entries.
    now rewrite <- Hserver, <- Hchannel.
  - intros s1 c1 s2 c2 -> ->. reflexivity.
  - vm_compute. reflexivity.
Qed.

Lemma instance_returns_same_supervisor_witness :
  let r1 := snd (instance example_lookup empty_registry) in
  let r2 := lookups [example_lookup_other] r1 in
  instance example_lookup_again r2 = (Returned 0%nat, r2).
Proof.
  refine (proj1 (instance_returns_same_supervisor
                   example_lookup example_lookup_again [example_lookup_other]
                   empty_registry (snd (instance example_lookup empty_registry))
                   0%nat _ _ _)).
  - reflexivity.
  - reflexivity.
  - vm_compute. reflexivity.
Defined.

(** ** The request signature *)

(** C9 (as amended): the headers are [Authorization] and [Date], and [Date]
    holds the timestamp that is signed.  With a non-empty body they are the
    ones of the formula: "tablo:", the access key, ":" and the upper-case
    hex HMAC-MD5, under the secret key, of method, path, hex MD5 of the body
    and date, joined by newlines.  With the body left out or empty, the
    place of the body digest in the signed message is empty. *)
Theorem generateAuthHeader_signature
    (date method path : string) (body : option string) (keys : Credentials) :
  let h := generateAuthHeader date method path body keys in
  Date h = date
  /\ (forall b, body = Some b -> b <> "" ->
                h = spec_auth_header date method path b keys)
  /\ (body = None \/ body = Some "" ->
      Authorization h
      = "tablo:" +:+ access_key keys +:+ ":"
        +:+ toUpperCase
              (MD5.hmac_hex (secret_key keys)
                 (method +:+ newline +:+ path +:+ newline +:+ ""
                  +:+ newline +:+ date))).
Proof.
  intros h. subst h. repeat apply conj.
  - reflexivity.
  - intros b -> Hb. unfold generateAuthHeader, spec_auth_header.
    cbv [default from_option Datatypes.id].
    destruct (String.eqb_spec b ""); [contradiction|].
    reflexivity.
  - intros [-> | ->]; reflexivity.
Qed.

(** C9 (as stated) fails: for a request without a body the signed message
    has an empty third line, not the MD5 digest of the empty string, and
    the two signatures differ. *)
Lemma generateAuthHeader_empty_body_not_digest :
  generateAuthHeader example_date "GET" "/server/info" None example_keys
  <> spec_auth_header example_date "GET" "/server/info" "" example_keys.
Proof. vm_compute. discriminate. Qed.

(** * Further properties of the supervisor *)

(** ** What never changes *)

Lemma same_config_refl (t : LiveTranscoder) : same_config t t.
Proof. unfold same_config. tauto. Qed.

Lemma same_config_trans (t1 t2 t3 : LiveTranscoder) :
  same_config t1 t2 -> same_config t2 t3 -> same_config t1 t3.
Proof.
  unfold same_config.
  intros (?&?&?&?&?&?&?) (?&?&?&?&?&?&?). repeat split; congruence.
Qed.

Lemma same_config_on_stopped (w : World) : sup (on_stopped w) = sup w.
Proof.
  unfold on_stopped.
  destruct (existsSync _ (fs w)); [destruct (rmSync _ (fs w))|]; reflexivity.
Qed.

Lemma same_config_on_abort (w : World) : same_config (sup w) (sup (on_abort w)).
Proof.
  unfold on_abort. destruct (process (sup w)) as [pid|]; [|apply same_config_refl].
  open_world w. destruct timer0, _session0; cbn -[abort_finish];
    try (unfold same_config; simpl; tauto);
    unfold abort_finish; rewrite same_config_on_stopped;
    unfold same_config; simpl; tauto.
Qed.

Lemma same_config_start_ffmpeg (w : World) :
  same_config (sup w) (sup (snd (start_ffmpeg w))).
Proof.
  unfold start_ffmpeg. destruct (_session (sup w)); unfold same_config; simpl; tauto.
Qed.

(** No event changes the identity, the paths or the options of the
    supervisor. *)
Lemma same_config_step (e : event) (w : World) :
  same_config (sup w) (sup (step e w)).
Proof.
  destruct e; simpl.
  - unfold start_call. destruct (_active (sup w)); unfold same_config; simpl; tauto.
  - destruct (pending_starts w); [apply same_config_refl|].
    destruct r; unfold same_config; simpl; tauto.
  - destruct (pending_polls w); [apply same_config_refl|]. unfold check_fires.
    destruct (existsSync _ _); unfold same_config; simpl; tauto.
  - unfold stop. destruct (_ && _).
    + eapply same_config_trans; [|apply same_config_on_abort].
      unfold same_config. simpl. tauto.
    + unfold same_config. simpl. tauto.
  - destruct (procs w !! pid) as [p|]; [|apply same_config_refl].
    destruct (exited p); [apply same_config_refl|].
    unfold on_process_exit. destruct (negb _).
    + eapply same_config_trans; [|apply same_config_on_abort].
      unfold same_config. simpl. tauto.
    + eapply same_config_trans; [|apply same_config_start_ffmpeg].
      unfold same_config. simpl. tauto.
  - destruct (procs w !! pid) as [p|]; [|apply same_config_refl].
    unfold on_process_error. destruct (negb _).
    + eapply same_config_trans; [|apply same_config_on_abort].
      unfold same_config. simpl. tauto.
    + eapply same_config_trans; [|apply same_config_start_ffmpeg].
      unfold same_config. simpl. tauto.
  - destruct (timers w !! tid) as [tm|]; [|apply same_config_refl].
    destruct (destroyed tm); [apply same_config_refl|]. unfold on_tick.
    destruct (_session (sup w)); unfold same_config; simpl; tauto.
  - destruct (pending_aborts w); [apply same_config_refl|].
    unfold abort_finish. rewrite same_config_on_stopped.
    unfold same_config. simpl. tauto.
  - apply same_config_refl.
  - apply same_config_refl.
Qed.

Lemma same_config_run (evs : list event) (w : World) :
  same_config (sup w) (sup (run evs w)).
Proof.
  revert w. induction evs as [|e evs IH]; intros w; [apply same_config_refl|].
  rewrite run_cons. eapply same_config_trans; [apply same_config_step | apply IH].
Qed.

(** ** The processes the supervisor spawns *)

Lemma spawned_for_config (t t' : LiveTranscoder) (p : ChildProcess) :
  same_config t t' -> spawned_for t p -> spawned_for t' p.
Proof.
  unfold same_config, spawned_for.
  intros (_&_&_&_&_&Hf&Hp) [Hfile [url Hargs]]. rewrite Hf, Hp. eauto.
Qed.

Lemma Forall_spawned_alter (t : LiveTranscoder) (f : ChildProcess -> ChildProcess)
    (i : nat) (ps : list ChildProcess) :
  (forall p, spawnfile (f p) = spawnfile p /\ spawnargs (f p) = spawnargs p) ->
  Forall (spawned_for t) ps -> Forall (spawned_for t) (alter f i ps).
Proof.
  intros Hf Hps. revert i. induction Hps as [|p ps Hp Hps IH]; intros i.
  - constructor.
  - destruct i as [|i]; simpl.
    + constructor; [|exact Hps]. unfold spawned_for in *.
      destruct (Hf p) as [-> ->]. exact Hp.
    + constructor; [exact Hp | apply IH].
Qed.

Lemma spawned_start_ffmpeg (w : World) :
  Forall (spawned_for (sup w)) (procs w) ->
  Forall (spawned_for (sup (snd (start_ffmpeg w)))) (procs (snd (start_ffmpeg w))).
Proof.
  intros Hw. unfold start_ffmpeg. destruct (_session (sup w)) as [s|]; [|exact Hw].
  simpl. apply Forall_app. split.
  - eapply Forall_impl; [exact Hw|]. intros p. apply spawned_for_config.
    unfold same_config. simpl. tauto.
  - apply Forall_singleton. unfold spawned_for. simpl. eauto.
Qed.

Lemma procs_on_stopped (w : World) : procs (on_stopped w) = procs w.
Proof.
  unfold on_stopped.
  destruct (existsSync _ (fs w)); [destruct (rmSync _ (fs w))|]; reflexivity.
Qed.

Lemma spawned_on_abort (w : World) :
  Forall (spawned_for (sup w)) (procs w) ->
  Forall (spawned_for (sup (on_abort w))) (procs (on_abort w)).
Proof.
  intros Hw.
  eapply Forall_impl; [|intros p; apply (spawned_for_config _ _ p (same_config_on_abort w))].
  unfold on_abort. destruct (process (sup w)) as [pid|]; [|exact Hw].
  assert (Halt : Forall (spawned_for (sup w))
            (alter (fun p => kill_unless_killed (write_stdin "q" p)) pid (procs w))).
  { apply Forall_spawned_alter; [|exact Hw].
    intros p. unfold kill_unless_killed, write_stdin. simpl.
    destruct (killed p); simpl; auto. }
  open_world w. destruct timer0, _session0; cbn -[abort_finish];
    try exact Halt; unfold abort_finish; rewrite procs_on_stopped; exact Halt.
Qed.

Lemma spawned_step (e : event) (w : World) :
  Forall (spawned_for (sup w)) (procs w) ->
  Forall (spawned_for (sup (step e w))) (procs (step e w)).
Proof.
  intros Hw. destruct e; simpl.
  - unfold start_call. destruct (_active (sup w)); exact Hw.
  - destruct (pending_starts w); [exact Hw|]. destruct r as [s|]; [|exact Hw].
    unfold start_resume.
    match goal with
    | |- context [start_ffmpeg ?x] =>
        pose proof (spawned_start_ffmpeg x Hw) as H;
        destruct (start_ffmpeg x) as [started w4]
    end.
    destruct started; exact H.
  - destruct (pending_polls w); [exact Hw|]. unfold check_fires.
    destruct (existsSync _ _); exact Hw.
  - unfold stop. destruct (_ && _); [|exact Hw].
    apply spawned_on_abort. exact Hw.
  - destruct (procs w !! pid) as [p|]; [|exact Hw].
    destruct (exited p); [exact Hw|].
    assert (Hm : Forall (spawned_for (sup w)) (alter mark_exited pid (procs w))).
    { apply Forall_spawned_alter; [|exact Hw]. intros q. simpl. auto. }
    unfold on_process_exit. destruct (negb _).
    + apply spawned_on_abort. exact Hm.
    + apply spawned_start_ffmpeg. exact Hm.
  - destruct (procs w !! pid) as [p|]; [|exact Hw].
    unfold on_process_error. destruct (negb _).
    + apply spawned_on_abort. exact Hw.
    + apply spawned_start_ffmpeg. exact Hw.
  - destruct (timers w !! tid) as [tm|]; [|exact Hw].
    destruct (destroyed tm); [exact Hw|]. unfold on_tick.
    destruct (_session (sup w)); exact Hw.
  - destruct (pending_aborts w); [exact Hw|].
    unfold abort_finish. rewrite procs_on_stopped, same_config_on_stopped.
    exact Hw.
  - exact Hw.
  - exact Hw.
Qed.

Lemma spawned_run (evs : list event) (w : World) :
  Forall (spawned_for (sup w)) (procs w) ->
  Forall (spawned_for (sup (run evs w))) (procs (run evs w)).
Proof.
  revert w. induction evs as [|e evs IH]; intros w Hw; [exact Hw|].
  rewrite run_cons. apply IH. now apply spawned_step.
Qed.

Lemma construct_full_path (ident channel out name : string) (restart : bool)
    (ffmpeg : string) (f0 f : FileSystem) (t : LiveTranscoder) :
  construct ident channel out name restart ffmpeg f0 = Some (t, f) ->
  t = mkLT ident channel out name restart ffmpeg None None 0 false
           (resolve (resolve out ident) name) None.
Proof.
  unfold construct. destruct (if existsSync _ f0 then _ else _); [|discriminate].
  now intros [= <- _].
Qed.

Lemma last_ffmpeg_args (url path : string) :
  last (ffmpeg_args url path) = Some path.
Proof. reflexivity. Qed.

(** X1: whatever happens to a supervisor, every process it has ever spawned
    runs the external tool it was built with and has the argument vector of
    [start_ffmpeg], whose last argument is the supervisor's playlist path,
    the file [filename] in the directory [id] under [output_path]: no
    process of a supervisor is told to write anywhere else. *)
Theorem every_process_writes_the_playlist (w : World) (pid : nat) (p : ChildProcess) :
  reachable w ->
  procs w !! pid = Some p ->
  spawnfile p = ffmpeg_path (sup w)
  /\ (exists url, spawnargs p = ffmpeg_args url (_full_path (sup w)))
  /\ last (spawnargs p) = Some (_full_path (sup w))
  /\ _full_path (sup w)
     = resolve (resolve (output_path (sup w)) (id (sup w))) (filename (sup w)).
Proof.
  intros (ident & channel & out & name & restart & ffmpeg & f0 & t & f & evs
          & Hc & ->) Hp.
  pose proof (spawned_run evs (fresh_world t f) (List.Forall_nil _)) as Hall.
  destruct (Forall_lookup_1 _ _ _ _ Hall Hp) as [Hfile [url Hargs]].
  repeat apply conj.
  - exact Hfile.
  - eauto.
  - rewrite Hargs. apply last_ffmpeg_args.
  - destruct (same_config_run evs (fresh_world t f))
      as (Hid & _ & Hout & Hname & _ & _ & Hpath).
    rewrite Hid, Hout, Hname, Hpath.
    apply construct_full_path in Hc. subst t. reflexivity.
Qed.

Lemma every_process_writes_the_playlist_witness :
  last (spawnargs (mkProc "/usr/bin/ffmpeg"
                     (ffmpeg_args (playlist_url example_session)
                                  "/srv/streams/f00d/stream.m3u8")
                     false false []))
  = Some (_full_path (sup (step (ProcessExit 0%nat (Some 1)) example_active_world))).
Proof.
  refine (proj1 (proj2 (proj2 (every_process_writes_the_playlist
            (step (ProcessExit 0%nat (Some 1)) example_active_world) 1%nat
            (mkProc "/usr/bin/ffmpeg"
                    (ffmpeg_args (playlist_url example_session)
                                 "/srv/streams/f00d/stream.m3u8")
                    false false []) _ _)))).
  - exists "f00d", "C1", "/srv/streams", "stream.m3u8", true, "/usr/bin/ffmpeg",
      example_fs.
    eexists _, _,
      (first_start example_session 2 ++ playlist_observed example_world
       ++ [ProcessExit 0%nat (Some 1)]).
    split; [reflexivity|]. vm_compute. reflexivity.
  - vm_compute. reflexivity.
Defined.

(** ** Counting users *)

(** A [stop()] that leaves a user changes the count and nothing else. *)
Lemma run_stops_above_zero (j : nat) (w : World) :
  Z.of_nat j < _use_count (sup w) ->
  run (repeat CallStop j) w
  = update_sup (set_use_count (_use_count (sup w) - Z.of_nat j)) w.
Proof.
  revert w. induction j as [|j IH]; intros w Hj.
  - open_world w. unfold update_sup, set_use_count. simpl.
    now rewrite Z.sub_0_r.
  - simpl repeat. rewrite run_cons.
    assert (Hstep : step CallStop w = update_sup decr_use_count w).
    { simpl. unfold stop.
      assert (Hleb : (_use_count (sup (update_sup decr_use_count w)) <=? 0) = false).
      { apply Z.leb_gt. simpl. lia. }
      rewrite Hleb. now rewrite andb_false_r. }
    rewrite Hstep, IH by (simpl; lia).
    unfold update_sup, set_sup, set_use_count, decr_use_count.
    cbn -[Z.of_nat Z.sub].
    replace (_use_count (sup w) - 1 - Z.of_nat j)
      with (_use_count (sup w) - Z.of_nat (S j)) by lia.
    reflexivity.
Qed.

(** X2: with [n] users on an active supervisor, the first [n - 1] calls of
    [stop()] change the use count and nothing else: no process is signalled,
    no timer destroyed, nothing asked of the device, nothing emitted.  The
    [n]-th call is the one that releases the stream: the process in the
    handle gets the quit character on its input and the kill signal, and
    both handles are cleared. *)
Theorem stop_releases_at_last_user
    (w : World) (n pid : nat) (p : ChildProcess) :
  _active (sup w) = true ->
  _use_count (sup w) = Z.of_nat n ->
  (1 <= n)%nat ->
  process (sup w) = Some pid ->
  procs w !! pid = Some p ->
  exited p = false ->
  killed p = false ->
  (forall j, (j < n)%nat ->
     run (repeat CallStop j) w
     = update_sup (set_use_count (Z.of_nat n - Z.of_nat j)) w)
  /\ (let w' := run (repeat CallStop n) w in
      process (sup w') = None
      /\ timer (sup w') = None
      /\ procs w' !! pid
         = Some (mkProc (spawnfile p) (spawnargs p) false true
                        (stdin_written p ++ ["q"]))
      /\ length (procs w') = length (procs w)
      /\ use_count w' = 0).
Proof.
  intros Hact Hcount Hn Hproc Hp Hex Hkill. split.
  - intros j Hj. rewrite run_stops_above_zero by lia. now rewrite Hcount.
  - destruct n as [|m]; [lia|].
    replace (S m) with (m + 1)%nat by lia.
    rewrite repeat_app, run_app, (run_stops_above_zero m w) by lia.
    rewrite Hcount. simpl repeat. rewrite run_cons. simpl run.
    assert (Hleb : (Z.of_nat (S m) - Z.of_nat m - 1 <=? 0) = true)
      by (apply Z.leb_le; lia).
    open_world w. subst.
    unfold stop, on_abort; cbn -[Z.sub Z.leb Z.of_nat on_stopped alter].
    rewrite Hleb. cbn -[Z.sub Z.of_nat on_stopped alter].
    assert (Hlook : alter (fun q => kill_unless_killed (write_stdin "q" q)) pid procs0
                      !! pid
                    = Some (mkProc (spawnfile p) (spawnargs p) false true
                                   (stdin_written p ++ ["q"]))).
    { rewrite list_lookup_alter_eq, Hp. simpl.
      unfold kill_unless_killed, write_stdin. simpl. now rewrite Hkill, Hex. }
    destruct timer0 as [tid|], _session0 as [s|];
      cbn -[Z.sub Z.of_nat on_stopped alter];
      unfold abort_finish; rewrite ?same_config_on_stopped, ?procs_on_stopped;
      unfold use_count; rewrite ?same_config_on_stopped;
      cbn -[Z.sub Z.of_nat alter]; rewrite length_alter;
      (repeat apply conj; [reflexivity | reflexivity | exact Hlook | reflexivity | lia]).
Qed.

Lemma stop_releases_at_last_user_witness :
  process (sup (run (repeat CallStop 3) (run (repeat CallStart 2) example_active_world)))
  = None.
Proof.
  refine (proj1 (proj2 (stop_releases_at_last_user
            (run (repeat CallStart 2) example_active_world) 3 0%nat
            (mkProc "/usr/bin/ffmpeg"
                    (ffmpeg_args (playlist_url example_session)
                                 "/srv/streams/f00d/stream.m3u8")
                    false false [])
            _ _ _ _ _ _ _))); try reflexivity.
  lia.
Defined.

(** ** Process exits *)

Lemma emitted_on_stopped (w : World) : emitted (on_stopped w) = emitted w ++ [Stopped].
Proof.
  unfold on_stopped.
  destruct (existsSync _ (fs w)); [destruct (rmSync _ (fs w))|]; reflexivity.
Qed.

Lemma timers_on_stopped (w : World) : timers (on_stopped w) = timers w.
Proof.
  unfold on_stopped.
  destruct (existsSync _ (fs w)); [destruct (rmSync _ (fs w))|]; reflexivity.
Qed.

Lemma device_log_on_stopped (w : World) : device_log (on_stopped w) = device_log w.
Proof.
  unfold on_stopped.
  destruct (existsSync _ (fs w)); [destruct (rmSync _ (fs w))|]; reflexivity.
Qed.

Lemma pending_on_stopped (w : World) :
  pending_aborts (on_stopped w) = pending_aborts w
  /\ pending_polls (on_stopped w) = pending_polls w
  /\ pending_starts (on_stopped w) = pending_starts w.
Proof.
  unfold on_stopped.
  destruct (existsSync _ (fs w)); [destruct (rmSync _ (fs w))|]; auto.
Qed.




(** The pieces of a teardown, each in closed form. *)
Lemma stop_aborts (w : World) :
  _active (sup w) = true -> _use_count (sup w) <= 1 ->
  stop w = on_abort (update_sup decr_use_count w).
Proof.
  intros Hact Hcount. unfold stop.
  assert (Hleb : (_use_count (sup (update_sup decr_use_count w)) <=? 0) = true).
  { apply Z.leb_le. simpl. lia. }
  rewrite Hleb. simpl. now rewrite Hact.
Qed.

Lemma on_abort_with_session (w : World) (pid : nat) (s : PlayerSession) :
  process (sup w) = Some pid -> _session (sup w) = Some s ->
  exists ts,
    on_abort w
    = set_pending_aborts (S (pending_aborts w))
        (request (DeleteSession (token s))
           (update_sup (set_timer None)
              (set_timers ts
                 (update_sup (set_process None)
                    (set_procs
                       (alter (fun q => kill_unless_killed (write_stdin "q" q))
                              pid (procs w))
                       w))))).
Proof.
  intros Hp Hs. unfold on_abort. rewrite Hp.
  open_world w. subst. destruct timer0; eexists; reflexivity.
Qed.

Lemma step_exit_respawns (w : World) (pid : nat) (q : ChildProcess)
    (s : PlayerSession) (code : option Z) :
  procs w !! pid = Some q -> exited q = false ->
  auto_restart (sup w) = true -> _session (sup w) = Some s ->
  step (ProcessExit pid code) w
  = update_sup (set_process (Some (length (procs w))))
      (set_procs
         (alter mark_exited pid (procs w)
          ++ [mkProc (ffmpeg_path (sup w))
                     (ffmpeg_args (playlist_url s) (_full_path (sup w)))
                     false false []])
         (emit (Exit code) w)).
Proof.
  intros Hq Hex Hauto Hs. cbn [step]. rewrite Hq, Hex.
  unfold on_process_exit. cbn [emit sup set_procs auto_restart]. rewrite Hauto.
  cbn [negb]. unfold start_ffmpeg. cbn [emit sup set_procs _session]. rewrite Hs.
  cbn [snd procs set_procs emit sup ffmpeg_path _full_path].
  now rewrite length_alter.
Qed.

Lemma step_delete_resolved (w : World) (n : nat) (ok : bool) :
  pending_aborts w = S n ->
  step (DeleteResolved ok) w = abort_finish (set_pending_aborts n w).
Proof. intros H. cbn [step]. now rewrite H. Qed.

(** X4: the abort sequence leaves the session in its field, and the exit
    handler does not ask whether the supervisor was stopped.  So with
    [auto_restart] on, when the process killed by the last [stop()] exits
    while the deletion of the session is awaited, a new process is spawned
    for the same playlist URL; when the teardown ends ('stopped' emitted,
    supervisor inactive) that process is running, not signalled, and in the
    handle. *)
Theorem exit_of_stopped_process_respawns
    (w : World) (s : PlayerSession) (pid : nat) (p : ChildProcess)
    (code : option Z) (ok : bool) :
  _active (sup w) = true ->
  auto_restart (sup w) = true ->
  _use_count (sup w) <= 1 ->
  _session (sup w) = Some s ->
  process (sup w) = Some pid ->
  procs w !! pid = Some p ->
  exited p = false ->
  let w' := run [CallStop; ProcessExit pid code; DeleteResolved ok] w in
  _active (sup w') = false
  /\ emitted w' = emitted w ++ [Exit code; Stopped]
  /\ device_log w' = device_log w ++ [DeleteSession (token s)]
  /\ process (sup w') = Some (length (procs w))
  /\ procs w' !! length (procs w)
     = Some (mkProc (ffmpeg_path (sup w))
                    (ffmpeg_args (playlist_url s) (_full_path (sup w)))
                    false false [])
  /\ timer (sup w') = None.
Proof.
  intros Hact Hauto Hcount Hs Hproc Hp Hex w'.
  subst w'. rewrite !run_cons. unfold run. cbn [fold_left].
  change (step CallStop w) with (stop w). rewrite (stop_aborts w Hact Hcount).
  destruct (on_abort_with_session (update_sup decr_use_count w) pid s Hproc Hs)
    as [ts ->].
  set (killed_procs := alter (fun q => kill_unless_killed (write_stdin "q" q)) pid
                             (procs (update_sup decr_use_count w))).
  assert (Hlook : exists q, killed_procs !! pid = Some q /\ exited q = false).
  { unfold killed_procs. cbn [procs update_sup set_sup].
    rewrite list_lookup_alter_eq, Hp. simpl. eexists. split; [reflexivity|].
    unfold kill_unless_killed, write_stdin. simpl. destruct (killed p); simpl; exact Hex. }
  destruct Hlook as (q & Hq & Hqex).
  assert (Hlen : length killed_procs = length (procs w)).
  { unfold killed_procs. now rewrite length_alter. }
  erewrite (step_exit_respawns _ pid q s code); [|exact Hq|exact Hqex|exact Hauto|exact Hs].
  erewrite step_delete_resolved by reflexivity.
  unfold abort_finish.
  rewrite emitted_on_stopped, device_log_on_stopped, same_config_on_stopped,
    procs_on_stopped.
  cbn [sup procs emitted device_log update_sup set_sup set_procs emit request
       set_pending_aborts set_timers set_active set_process set_timer
       _active process timer ffmpeg_path _full_path decr_use_count set_use_count].
  rewrite Hlen.
  rewrite lookup_app_r by (rewrite length_alter, Hlen; reflexivity).
  rewrite length_alter, Hlen, Nat.sub_diag, <- app_assoc.
  repeat apply conj; reflexivity.
Qed.

Lemma exit_of_stopped_process_respawns_witness :
  process (sup (run [CallStop; ProcessExit 0%nat None; DeleteResolved true]
                    example_active_world))
  = Some 1%nat.
Proof.
  refine (proj1 (proj2 (proj2 (proj2 (exit_of_stopped_process_respawns
            example_active_world example_session 0%nat
            (mkProc "/usr/bin/ffmpeg"
                    (ffmpeg_args (playlist_url example_session)
                                 "/srv/streams/f00d/stream.m3u8")
                    false false [])
            None true _ _ _ _ _ _ _))))); try reflexivity.
Defined.

(** ** Becoming active *)

Lemma active_on_abort (w : World) :
  _active (sup w) = false -> _active (sup (on_abort w)) = false.
Proof.
  intros Hact. unfold on_abort. destruct (process (sup w)); [|exact Hact].
  open_world w. subst. destruct timer0, _session0; cbn -[on_stopped];
    try reflexivity; unfold abort_finish; now rewrite same_config_on_stopped.
Qed.

(** Only the poll that finds the playlist marks the supervisor active. *)
Lemma activation_step (e : event) (w : World) :
  _active (sup w) = false ->
  _active (sup (step e w)) = true ->
  e = CheckFires
  /\ existsSync (_full_path (sup w)) (fs w) = true
  /\ emitted (step e w) = emitted w ++ [Ready].
Proof.
  intros Hoff Hon. destruct e; simpl in Hon.
  - unfold start_call in Hon. rewrite Hoff in Hon. simpl in Hon. congruence.
  - destruct (pending_starts w); [congruence|].
    destruct r; simpl in Hon; congruence.
  - simpl. destruct (pending_polls w); [congruence|]. unfold check_fires in *.
    destruct (existsSync _ _); [|congruence]. auto.
  - unfold stop in Hon. destruct (_ && _).
    + rewrite active_on_abort in Hon by (simpl; exact Hoff). discriminate.
    + simpl in Hon. congruence.
  - destruct (procs w !! pid) as [p|]; [|congruence].
    destruct (exited p); [congruence|]. unfold on_process_exit in Hon.
    destruct (negb _).
    + rewrite active_on_abort in Hon by (simpl; exact Hoff). discriminate.
    + unfold start_ffmpeg in Hon. simpl in Hon.
      destruct (_session (sup w)); simpl in Hon; congruence.
  - destruct (procs w !! pid) as [p|]; [|congruence].
    unfold on_process_error in Hon. destruct (negb _).
    + rewrite active_on_abort in Hon by (simpl; exact Hoff). discriminate.
    + unfold start_ffmpeg in Hon. simpl in Hon.
      destruct (_session (sup w)); simpl in Hon; congruence.
  - destruct (timers w !! tid) as [tm|]; [|congruence].
    destruct (destroyed tm); [congruence|]. unfold on_tick in Hon.
    destruct (_session (sup w)); simpl in Hon; congruence.
  - destruct (pending_aborts w); [congruence|].
    unfold abort_finish in Hon. rewrite same_config_on_stopped in Hon.
    simpl in Hon. discriminate.
  - simpl in Hon. congruence.
  - simpl in Hon. congruence.
Qed.

(** X5: a supervisor that was not active and is active after a run was made
    so by a poll of that run, delivered at a moment when the playlist file
    existed on disk; that poll emitted 'ready'.  Neither [start()] nor any
    process or timer event marks a supervisor active. *)
Theorem active_only_after_playlist_seen (evs : list event) (w : World) :
  _active (sup w) = false ->
  _active (sup (run evs w)) = true ->
  exists before after,
    evs = before ++ CheckFires :: after
    /\ _active (sup (run before w)) = false
    /\ existsSync (_full_path (sup w)) (fs (run before w)) = true
    /\ emitted (run (before ++ [CheckFires]) w) = emitted (run before w) ++ [Ready].
Proof.
  revert w. induction evs as [|e evs IH]; intros w Hoff Hon.
  - simpl in Hon. congruence.
  - rewrite run_cons in Hon.
    destruct (_active (sup (step e w))) eqn:Hstep.
    + destruct (activation_step e w Hoff Hstep) as (-> & Hex & Hem).
      exists [], evs. repeat apply conj; auto.
    + destruct (IH _ Hstep Hon) as (before & after & -> & Hb & Hex & Hem).
      exists (e :: before), after.
      destruct (same_config_step e w) as (_&_&_&_&_&_&Hpath).
      rewrite Hpath in Hex.
      repeat apply conj; auto.
Qed.

Lemma active_only_after_playlist_seen_witness :
  exists before after,
    first_start example_session 2 ++ playlist_observed example_world
    = before ++ CheckFires :: after
    /\ _active (sup (run before example_world)) = false
    /\ existsSync (_full_path (sup example_world)) (fs (run before example_world))
       = true
    /\ emitted (run (before ++ [CheckFires]) example_world)
       = emitted (run before example_world) ++ [Ready].
Proof.
  apply (active_only_after_playlist_seen
           (first_start example_session 2 ++ playlist_observed example_world)
           example_world).
  - reflexivity.
  - vm_compute. reflexivity.
Defined.

(** ** The keepalive timer *)

Lemma timer_destroyed_on_stopped (tid : nat) (w : World) :
  timer_destroyed tid w -> timer_destroyed tid (on_stopped w).
Proof. unfold timer_destroyed. now rewrite timers_on_stopped. Qed.

Lemma destroyed_alter (tid i : nat) (ts : list Timer) :
  destroyed <$> ts !! tid = Some true ->
  destroyed <$> alter destroy i ts !! tid = Some true.
Proof.
  intros H. destruct (decide (i = tid)) as [->|Hne].
  - rewrite list_lookup_alter_eq. destruct (ts !! tid); [reflexivity|discriminate].
  - now rewrite list_lookup_alter_ne.
Qed.

Lemma timer_destroyed_on_abort (tid : nat) (w : World) :
  timer_destroyed tid w -> timer_destroyed tid (on_abort w).
Proof.
  intros H. unfold on_abort. destruct (process (sup w)); [|exact H].
  unfold timer_destroyed in *.
  open_world w. destruct timer0, _session0; cbn -[on_stopped alter];
    unfold abort_finish; rewrite ?timers_on_stopped; cbn -[alter];
    try apply destroyed_alter; exact H.
Qed.

Lemma timer_destroyed_step (tid : nat) (e : event) (w : World) :
  timer_destroyed tid w -> timer_destroyed tid (step e w).
Proof.
  intros H. destruct e; simpl.
  - unfold start_call. destruct (_active (sup w)); exact H.
  - destruct (pending_starts w); [exact H|]. destruct r as [s|]; [|exact H].
    unfold timer_destroyed in *. simpl.
    destruct (timers w !! tid) as [tm|] eqn:Ht; [|discriminate].
    now rewrite (lookup_app_l_Some _ _ _ _ Ht).
  - destruct (pending_polls w); [exact H|]. unfold check_fires.
    destruct (existsSync _ _); exact H.
  - unfold stop. destruct (_ && _); [|exact H].
    now apply timer_destroyed_on_abort.
  - destruct (procs w !! pid) as [p|]; [|exact H].
    destruct (exited p); [exact H|]. unfold on_process_exit.
    destruct (negb _).
    + now apply timer_destroyed_on_abort.
    + unfold start_ffmpeg. simpl. destruct (_session (sup w)); exact H.
  - destruct (procs w !! pid) as [p|]; [|exact H].
    unfold on_process_error. destruct (negb _).
    + now apply timer_destroyed_on_abort.
    + unfold start_ffmpeg. simpl. destruct (_session (sup w)); exact H.
  - destruct (timers w !! tid0) as [tm|]; [|exact H].
    destruct (destroyed tm); [exact H|]. unfold on_tick.
    destruct (_session (sup w)); exact H.
  - destruct (pending_aborts w); [exact H|].
    unfold abort_finish. now apply timer_destroyed_on_stopped.
  - exact H.
  - exact H.
Qed.

Lemma timer_destroyed_run (tid : nat) (evs : list event) (w : World) :
  timer_destroyed tid w -> timer_destroyed tid (run evs w).
Proof.
  revert w. induction evs as [|e evs IH]; intros w H; [exact H|].
  rewrite run_cons. apply IH. now apply timer_destroyed_step.
Qed.

(** X6: the [stop()] of the last user destroys the keepalive timer the
    supervisor holds, and a destroyed timer stays destroyed: whatever happens
    afterwards, a tick of that timer sends nothing to the device and changes
    nothing. *)
Theorem stopped_timer_is_silent
    (w : World) (pid tid : nat) (tm : Timer) (evs : list event) :
  _active (sup w) = true ->
  _use_count (sup w) <= 1 ->
  process (sup w) = Some pid ->
  timer (sup w) = Some tid ->
  timers w !! tid = Some tm ->
  let w' := run evs (stop w) in
  timer_destroyed tid w' /\ step (TimerTick tid) w' = w'.
Proof.
  intros Hact Hcount Hproc Htimer Htm w'.
  assert (Hleb : (_use_count (sup w) - 1 <=? 0) = true) by (apply Z.leb_le; lia).
  assert (Hd : timer_destroyed tid w').
  { subst w'. apply timer_destroyed_run. unfold timer_destroyed, stop, on_abort.
    open_world w. subst. cbn -[Z.sub Z.leb on_stopped alter]. rewrite Hleb.
    destruct _session0; cbn -[on_stopped alter];
      unfold abort_finish; rewrite ?timers_on_stopped; cbn -[alter];
      rewrite list_lookup_alter_eq, Htm; reflexivity. }
  split; [exact Hd|].
  unfold timer_destroyed in Hd. simpl.
  destruct (timers w' !! tid) as [tm'|]; [|reflexivity].
  simpl in Hd. injection Hd as ->. reflexivity.
Qed.

Lemma stopped_timer_is_silent_witness :
  step (TimerTick 0%nat) (run [DeleteResolved true] (stop example_active_world))
  = run [DeleteResolved true] (stop example_active_world).
Proof.
  refine (proj2 (stopped_timer_is_silent example_active_world 0%nat 0%nat
                   (mkTimer 30000 false) [DeleteResolved true] _ _ _ _ _)).
  - reflexivity.
  - vm_compute. discriminate.
  - reflexivity.
  - reflexivity.
  - reflexivity.
Defined.

(** ** Construction *)

Lemma append_assoc (a b c : string) : (a +:+ b) +:+ c = a +:+ b +:+ c.
Proof.
  induction a as [|x a IH]; [reflexivity|].
  change (String x ((a +:+ b) +:+ c) = String x (a +:+ b +:+ c)). now rewrite IH.
Qed.

Lemma append_nil_r (a : string) : a +:+ "" = a.
Proof.
  induction a as [|x a IH]; [reflexivity|].
  change (String x (a +:+ "") = String x a). now rewrite IH.
Qed.




(** * Further properties of the registry *)

Lemma construct_id (ident channel out name : string) (restart : bool)
    (ffmpeg : string) (f0 f : FileSystem) (t : LiveTranscoder) :
  construct ident channel out name restart ffmpeg f0 = Some (t, f) -> id t = ident.
Proof. intros H. apply construct_full_path in H. now subst t. Qed.

Lemma registry_sound_instance (c : Lookup) (r : Registry) :
  registry_sound r -> registry_sound (snd (instance c r)).
Proof.
  intros [Hk Hh]. unfold instance.
  destruct (l_info c) as [info|]; [|split; assumption].
  destruct (instances r !! fingerprint _ _) eqn:Hkey; [split; assumption|].
  destruct (construct _ _ _ _ _ _ _) as [[t f]|] eqn:Hc; [|split; assumption].
  apply construct_id in Hc. cbn [snd]. split; cbn [instances heap].
  - intros k a Hka.
    destruct (decide (fingerprint (server_id info) (l_channel_id c) = k)) as [Heq|Hne].
    + rewrite Heq, lookup_insert_eq in Hka. injection Hka as <-.
      exists t. split; [|congruence].
      rewrite lookup_app_r by reflexivity. now rewrite Nat.sub_diag.
    + rewrite lookup_insert_ne in Hka by exact Hne.
      destruct (Hk _ _ Hka) as (t0 & Ht0 & Hid). exists t0.
      split; [now apply lookup_app_l_Some | exact Hid].
  - intros a t0 Ha. apply lookup_app_Some in Ha as [Ha|[Hlen Ha]].
    + rewrite lookup_insert_ne; [now apply Hh|].
      intros Heq. apply Hh in Ha. rewrite <- Heq in Ha. congruence.
    + destruct (a - length (heap r))%nat as [|n] eqn:Hn; [|destruct n; discriminate].
      injection Ha as <-. rewrite Hc, lookup_insert_eq. f_equal. lia.
Qed.

Lemma registry_sound_lookups (calls : list Lookup) (r : Registry) :
  registry_sound r -> registry_sound (lookups calls r).
Proof.
  revert r. induction calls as [|c calls IH]; intros r Hr; [exact Hr|].
  simpl. apply IH. now apply registry_sound_instance.
Qed.

Lemma registry_sound_new (f : FileSystem) : registry_sound (new_registry f).
Proof.
  split.
  - intros k a H. unfold new_registry in H. cbn [instances] in H.
    now rewrite lookup_empty in H.
  - intros a t H. discriminate.
Qed.

(** X8: in a registry grown by lookups from an empty one, two lookups return
    the same supervisor exactly when they computed the same fingerprint, and
    the supervisor a lookup returns carries that fingerprint as its id. *)
Theorem registry_one_supervisor_per_fingerprint
    (f : FileSystem) (calls : list Lookup) (c1 c2 : Lookup)
    (r1 r2 : Registry) (a1 a2 : nat) (k1 k2 : string) :
  let r := lookups calls (new_registry f) in
  lookup_key c1 = Some k1 ->
  lookup_key c2 = Some k2 ->
  instance c1 r = (Returned a1, r1) ->
  instance c2 r1 = (Returned a2, r2) ->
  (a1 = a2 <-> k1 = k2)
  /\ (exists t, heap r2 !! a1 = Some t /\ id t = k1)
  /\ (exists t, heap r2 !! a2 = Some t /\ id t = k2).
Proof.
  intros r Hk1 Hk2 H1 H2.
  assert (Hr : registry_sound r)
    by (apply registry_sound_lookups, registry_sound_new).
  assert (Hr1 : registry_sound r1).
  { replace r1 with (snd (instance c1 r)) by now rewrite H1.
    now apply registry_sound_instance. }
  assert (Hr2 : registry_sound r2).
  { replace r2 with (snd (instance c2 r1)) by now rewrite H2.
    now apply registry_sound_instance. }
  destruct (instance_registers _ _ _ _ H1) as (i1 & Hi1 & Hreg1).
  destruct (instance_registers _ _ _ _ H2) as (i2 & Hi2 & Hreg2).
  unfold lookup_key in Hk1, Hk2. rewrite Hi1 in Hk1. rewrite Hi2 in Hk2.
  simpl in Hk1, Hk2. injection Hk1 as Hk1. injection Hk2 as Hk2.
  rewrite Hk1 in Hreg1. rewrite Hk2 in Hreg2.
  assert (Hreg1' : instances r2 !! k1 = Some a1).
  { replace r2 with (snd (instance c2 r1)) by now rewrite H2.
    now apply instance_keeps_entries. }
  destruct Hr2 as [Hkeys Hheap].
  destruct (Hkeys _ _ Hreg1') as (t1 & Ht1 & Hid1).
  destruct (Hkeys _ _ Hreg2) as (t2 & Ht2 & Hid2).
  repeat apply conj; eauto.
  - intros ->. congruence.
  - intros ->. congruence.
Qed.

Lemma registry_one_supervisor_per_fingerprint_witness :
  (0%nat = 1%nat <-> fingerprint "D1" "C1" = fingerprint "D1" "C2").
Proof.
  refine (proj1 (registry_one_supervisor_per_fingerprint
            example_fs [] example_lookup example_lookup_other
            (snd (instance example_lookup empty_registry))
            (snd (instance example_lookup_other
                    (snd (instance example_lookup empty_registry))))
            0%nat 1%nat (fingerprint "D1" "C1") (fingerprint "D1" "C2")
            _ _ _ _)).
  - reflexivity.
  - reflexivity.
  - vm_compute. reflexivity.
  - vm_compute. reflexivity.
Defined.

Lemma lookups_keep_heap (calls : list Lookup) (r : Registry) (a : nat)
    (t : LiveTranscoder) :
  heap r !! a = Some t -> heap (lookups calls r) !! a = Some t.
Proof.
  revert r. induction calls as [|c calls IH]; intros r Ha; [exact Ha|].
  simpl. apply IH. now apply instance_keeps_heap.
Qed.

(** X9: the first lookup for a pair builds the supervisor, with the output
    path, file name and restart option of that call (and the defaults for
    what it left out).  A later lookup for the same pair returns that
    supervisor as it is: its own output path, file name and restart option
    are not used, and it touches neither the registry nor the filesystem. *)
Theorem instance_first_options_stay
    (first again : Lookup) (between : list Lookup) (r r1 : Registry)
    (a : nat) (k : string) :
  lookup_key first = Some k ->
  lookup_key again = Some k ->
  instances r !! k = None ->
  instance first r = (Returned a, r1) ->
  let r2 := lookups between r1 in
  instance again r2 = (Returned a, r2)
  /\ exists t,
       heap r2 !! a = Some t
       /\ id t = k
       /\ channel_id t = l_channel_id first
       /\ output_path t = l_output_path first
       /\ filename t = default "stream.m3u8" (l_filename first)
       /\ auto_restart t = default true (l_auto_restart first)
       /\ _full_path t
          = resolve (resolve (l_output_path first) k)
                    (default "stream.m3u8" (l_filename first)).
Proof.
  intros Hk1 Hk2 Hmiss Hfirst r2.
  unfold lookup_key in Hk1, Hk2.
  destruct (l_info first) as [i1|] eqn:Hi1; [|discriminate].
  destruct (l_info again) as [i2|] eqn:Hi2; [|discriminate].
  simpl in Hk1, Hk2. injection Hk1 as Hk1. injection Hk2 as Hk2.
  assert (Hbuilt : exists t f,
            construct k (l_channel_id first) (l_output_path first)
                      (default "stream.m3u8" (l_filename first))
                      (default true (l_auto_restart first))
                      (l_ffmpeg first) (disk r) = Some (t, f)
            /\ a = length (heap r)
            /\ r1 = mkRegistry (<[k := a]> (instances r)) (heap r ++ [t]) f).
  { unfold instance in Hfirst. rewrite Hi1 in Hfirst.
    cbv beta iota zeta in Hfirst. rewrite Hk1, Hmiss in Hfirst.
    destruct (construct _ _ _ _ _ _ _) as [[t f]|]; [|discriminate].
    injection Hfirst as <- <-. eauto. }
  destruct Hbuilt as (t & f & Hc & Ha & Hr1).
  split.
  - apply (instance_hit again r2 i2 a Hi2). rewrite Hk2.
    subst r2. apply lookups_keep_entries. rewrite Hr1. cbn [instances].
    apply lookup_insert_eq.
  - exists t. split.
    + subst r2. apply lookups_keep_heap. rewrite Hr1, Ha. cbn [heap].
      rewrite lookup_app_r by reflexivity. now rewrite Nat.sub_diag.
    + apply construct_full_path in Hc. subst t. repeat apply conj; reflexivity.
Qed.

Lemma instance_first_options_stay_witness :
  let r1 := snd (instance example_lookup empty_registry) in
  let r2 := lookups [example_lookup_other] r1 in
  instance example_lookup_again r2 = (Returned 0%nat, r2).
Proof.
  refine (proj1 (instance_first_options_stay
            example_lookup example_lookup_again [example_lookup_other]
            empty_registry (snd (instance example_lookup empty_registry))
            0%nat (fingerprint "D1" "C1") _ _ _ _)).
  - reflexivity.
  - reflexivity.
  - reflexivity.
  - vm_compute. reflexivity.
Defined.

(** * Properties of the device API *)

(** ** The clock *)

Lemma currentHour_order (clock : Z) :
  let h := currentHour clock in
  h_start h <= h_now h <= clock
  /\ clock < h_now h + 1000
  /\ clock < h_end h
  /\ h_end h = h_start h + 3600000.
Proof.
  unfold currentHour. cbn [h_now h_start h_end].
  set (n := clock / 1000 * 1000).
  pose proof (Z.mod_pos_bound clock 1000 ltac:(lia)) as Hc.
  pose proof (Z.div_mod clock 1000 ltac:(lia)) as Hd.
  assert (Hn : n = clock - clock mod 1000) by (unfold n; lia).
  pose proof (Z.mod_pos_bound n 3600000 ltac:(lia)) as Hc'.
  pose proof (Z.div_mod n 3600000 ltac:(lia)) as Hd'.
  change (60 * 60 * 1000) with 3600000.
  assert (Hs : n / 3600000 * 60 * 60 * 1000 = n - n mod 3600000) by lia.
  rewrite Hs.
  repeat apply conj; lia.
Qed.

(** X10: [currentHour] brackets the clock: [now] is the clock cut to whole
    seconds, [start] is the top of the hour that holds it and [end] the top
    of the next, so that [start <= now <= clock < end]. *)
Theorem currentHour_brackets_clock (clock : Z) :
  let h := currentHour clock in
  h_start h <= h_now h <= clock
  /\ clock < h_now h + 1000
  /\ clock < h_end h
  /\ h_end h = h_start h + 3600000
  /\ h_now h mod 1000 = 0
  /\ h_start h mod 3600000 = 0.
Proof.
  intros h. destruct (currentHour_order clock) as (H1 & H2 & H3 & H4).
  fold h in H1, H2, H3, H4.
  assert (Hn0 : h_now h mod 1000 = 0).
  { unfold h, currentHour. cbn [h_now]. apply Z.mod_mul. lia. }
  assert (Hs0 : h_start h mod 3600000 = 0).
  { unfold h, currentHour. cbn [h_start].
    change (60 * 60 * 1000) with 3600000.
    set (q := clock / 1000 * 1000 / 3600000).
    replace (q * 60 * 60 * 1000) with (q * 3600000) by lia.
    apply Z.mod_mul. lia. }
  repeat apply conj; try lia; assumption.
Qed.


(** ** Batches *)

Lemma chunks_concat {A} (n fuel : nat) (l : list A) :
  (0 < n)%nat -> (length l <= fuel)%nat -> concat (chunks fuel n l) = l.
Proof.
  intros Hn. revert l. induction fuel as [|fuel IH]; intros l Hl.
  - destruct l; [reflexivity | simpl in Hl; lia].
  - destruct l as [|x l]; [reflexivity|].
    cbn [chunks concat]. rewrite IH.
    + apply take_drop.
    + rewrite length_drop. simpl in *. lia.
Qed.

Lemma chunks_sizes {A} (n fuel : nat) (l : list A) :
  (0 < n)%nat ->
  Forall (fun b => (1 <= length b <= n)%nat) (chunks fuel n l).
Proof.
  intros Hn. revert l. induction fuel as [|fuel IH]; intros l.
  - destruct l; constructor.
  - destruct l as [|x l]; [constructor|].
    cbn [chunks]. constructor; [|apply IH].
    rewrite length_take. simpl. lia.
Qed.

Lemma chunks_count {A} (n fuel : nat) (l : list A) :
  (0 < n)%nat -> (length l <= fuel)%nat ->
  length (chunks fuel n l) = ((length l + n - 1) / n)%nat.
Proof.
  intros Hn. revert l. induction fuel as [|fuel IH]; intros l Hl.
  - destruct l; [|simpl in Hl; lia]. simpl.
    symmetry. apply Nat.div_small. lia.
  - destruct l as [|x l].
    + simpl. symmetry. apply Nat.div_small. lia.
    + cbn [chunks]. change (length (take n (x :: l) :: chunks fuel n (drop n (x :: l))))
        with (S (length (chunks fuel n (drop n (x :: l))))).
      rewrite IH by (rewrite length_drop; simpl in *; lia).
      rewrite length_drop. set (m := length (x :: l)).
      assert (Hm : (1 <= m)%nat) by (unfold m; simpl; lia).
      destruct (le_lt_dec n m) as [Hge|Hlt].
      * replace (m + n - 1)%nat with ((m - n + n - 1) + 1 * n)%nat by lia.
        rewrite Nat.div_add by lia. lia.
      * replace (m - n)%nat with 0%nat by lia.
        rewrite (Nat.div_small (0 + n - 1) n) by lia.
        apply (Nat.div_unique _ _ 1%nat (m - 1)%nat); lia.
Qed.

(** X12: the loop of [airings] asks for every path once and in order: the
    batches, put end to end, are the list of paths; no batch is empty, none
    has more than 50 paths, and there are as many as a fiftieth of the
    paths, rounded up. *)
Theorem batches_partition_the_paths (paths : list string) :
  concat (batches paths) = paths
  /\ Forall (fun b => (1 <= length b <= 50)%nat) (batches paths)
  /\ length (batches paths) = ((length paths + 49) / 50)%nat.
Proof.
  unfold batches. repeat apply conj.
  - apply chunks_concat; lia.
  - apply chunks_sizes. lia.
  - rewrite chunks_count by lia. f_equal. lia.
Qed.

(** ** The client *)

Lemma includes_append (pat a b : string) : includes pat (a +:+ pat +:+ b) = true.
Proof.
  induction a as [|c a IH].
  - change ("" +:+ pat +:+ b) with (pat +:+ b).
    destruct (pat +:+ b) eqn:E; cbn [includes]; rewrite <- E, prefix_append;
      reflexivity.
  - change (String c a +:+ pat +:+ b) with (String c (a +:+ pat +:+ b)).
    cbn [includes]. rewrite IH. apply orb_true_r.
Qed.

Lemma endsWith_drop_last (s : string) :
  endsWith "/" s = true -> s = drop_last s +:+ "/".
Proof.
  induction s as [|c s IH]; [discriminate|].
  cbn [endsWith]. intros H. apply orb_true_iff in H as [H|H].
  - apply String.eqb_eq in H. injection H as -> ->. reflexivity.
  - specialize (IH H). destruct s as [|d s]; [discriminate|].
    change (drop_last (String c (String d s)))
      with (String c (drop_last (String d s))).
    change (String c (drop_last (String d s)) +:+ "/")
      with (String c (drop_last (String d s) +:+ "/")).
    now rewrite <- IH.
Qed.

(** X13: after construction the [ssl] flag tells the scheme of [base_uri],
    whichever way the address was given.  An address with a scheme is taken
    as it is, less one closing slash, and settles the flag whatever the
    [ssl] and [port] options say; a bare host is made into a URI with the
    scheme of the [ssl] option and the port. *)
Theorem new_TabloAPI_ssl_matches_scheme (uuid hostOrUri : string) (o : Options) :
  let api := new_TabloAPI uuid hostOrUri o in
  ssl api = String.prefix "https" (base_uri api)
  /\ (includes "://" hostOrUri = true ->
      (base_uri api = hostOrUri \/ hostOrUri = base_uri api +:+ "/")
      /\ forall uuid' o', base_uri (new_TabloAPI uuid' hostOrUri o') = base_uri api)
  /\ (includes "://" hostOrUri = false ->
      includes "://" (base_uri api) = true
      /\ ssl api = default false (o_ssl o)
      /\ base_uri api
         = (if ssl api then "https" else "http") +:+ "://" +:+ hostOrUri +:+ ":"
           +:+ string_of_Z (default 8887 (o_port o))).
Proof.
  intros api. subst api. unfold new_TabloAPI.
  destruct (includes "://" hostOrUri) eqn:Hinc; cbn [ssl base_uri].
  - repeat apply conj.
    + reflexivity.
    + intros _. split; [|reflexivity].
      destruct (endsWith "/" hostOrUri) eqn:Hend; [|now left].
      right. now apply endsWith_drop_last.
    + discriminate.
  - repeat apply conj.
    + destruct (default false (o_ssl o)); reflexivity.
    + discriminate.
    + intros _. repeat apply conj; [|reflexivity|reflexivity].
      apply (includes_append "://" (if default false (o_ssl o) then "https" else "http")).
Qed.

(** ** The signature *)

Lemma length_le_bytes (n : nat) (x : Z) : length (le_bytes n x) = n.
Proof. revert x. induction n as [|n IH]; intros x; simpl; [reflexivity|]. now rewrite IH. Qed.

Lemma le_bytes_range (n : nat) (x : Z) :
  Forall (fun b => 0 <= b < 256) (le_bytes n x).
Proof.
  revert x. induction n as [|n IH]; intros x; simpl; constructor; [|apply IH].
  apply Z.mod_pos_bound. lia.
Qed.

Lemma md5_round_length (block st : list Z) (i : nat) :
  length st = 4%nat -> length (MD5.round block st i) = 4%nat.
Proof.
  destruct st as [|a [|b [|c [|d [|e st]]]]]; try discriminate.
  intros _. unfold MD5.round. destruct (MD5.mix i b c d). reflexivity.
Qed.

Lemma md5_compress_length (st block : list Z) :
  length st = 4%nat -> length (MD5.compress st block) = 4%nat.
Proof.
  intros Hst. unfold MD5.compress.
  rewrite length_map, length_combine.
  assert (H : forall l s, length s = 4%nat ->
            length (fold_left (MD5.round block) l s) = 4%nat).
  { induction l as [|i l IH]; intros s Hs; [exact Hs|].
    simpl. apply IH. now apply md5_round_length. }
  rewrite H by exact Hst. rewrite Hst. reflexivity.
Qed.

(** An MD5 digest has 16 bytes, each below 256. *)
Lemma md5_digest_bytes (msg : list Z) :
  length (MD5.digest msg) = 16%nat
  /\ Forall (fun b => 0 <= b < 256) (MD5.digest msg).
Proof.
  unfold MD5.digest.
  set (blocks := chunks _ 16 _).
  assert (H : forall bs s, length s = 4%nat ->
            length (fold_left MD5.compress bs s) = 4%nat).
  { induction bs as [|b bs IH]; intros s Hs; [exact Hs|].
    simpl. apply IH. now apply md5_compress_length. }
  specialize (H blocks MD5.initial eq_refl).
  destruct (fold_left MD5.compress blocks MD5.initial)
    as [|a [|b [|c [|d [|e st]]]]]; try discriminate.
  split.
  - cbn [concat map]. rewrite !length_app, !length_le_bytes. reflexivity.
  - cbn [concat map]. rewrite !Forall_app. repeat split; try apply le_bytes_range.
    constructor.
Qed.

Lemma upper_hex_of_digit (d : Z) :
  0 <= d < 16 -> is_upper_hex (upper_char (hex_digit d)) = true.
Proof.
  intros Hd.
  assert (H : d = 0 \/ d = 1 \/ d = 2 \/ d = 3 \/ d = 4 \/ d = 5 \/ d = 6 \/ d = 7
              \/ d = 8 \/ d = 9 \/ d = 10 \/ d = 11 \/ d = 12 \/ d = 13 \/ d = 14
              \/ d = 15) by lia.
  repeat (destruct H as [->|H]; [reflexivity|]). subst. reflexivity.
Qed.

Lemma upper_hex_of_bytes (bs : list Z) :
  Forall (fun b => 0 <= b < 256) bs ->
  String.length (toUpperCase (hex_of_bytes bs)) = (2 * length bs)%nat
  /\ string_forall is_upper_hex (toUpperCase (hex_of_bytes bs)) = true.
Proof.
  induction 1 as [|b bs Hb Hbs [IHlen IHhex]]; [split; reflexivity|].
  cbn [hex_of_bytes fold_right toUpperCase String.length string_forall]. split.
  - fold (hex_of_bytes bs). rewrite IHlen. simpl. lia.
  - fold (hex_of_bytes bs). rewrite IHhex.
    rewrite !upper_hex_of_digit; [reflexivity| |].
    + apply Z.mod_pos_bound. lia.
    + split; [apply Z.div_pos; lia | apply Z.div_lt_upper_bound; lia].
Qed.

Lemma length_append (a b : string) :
  String.length (a +:+ b) = (String.length a + String.length b)%nat.
Proof.
  induction a as [|c a IH]; [reflexivity|].
  change (String c a +:+ b) with (String c (a +:+ b)). simpl. now rewrite IH.
Qed.

(** X14: whatever the method, path, body, date and keys, the
    [Authorization] header is "tablo:", the access key, a colon and a
    signature of 32 characters, each of them a digit or a letter from A to
    F. *)
Theorem generateAuthHeader_shape
    (date method path : string) (body : option string) (credentials : Credentials) :
  exists signature,
    Authorization (generateAuthHeader date method path body credentials)
    = "tablo:" +:+ access_key credentials +:+ ":" +:+ signature
    /\ String.length signature = 32%nat
    /\ string_forall is_upper_hex signature = true
    /\ String.length
         (Authorization (generateAuthHeader date method path body credentials))
       = (39 + String.length (access_key credentials))%nat.
Proof.
  unfold generateAuthHeader. cbn [Authorization].
  match goal with
  | |- context [toUpperCase (MD5.hmac_hex ?k ?m)] =>
      set (sig := toUpperCase (MD5.hmac_hex k m))
  end.
  assert (Hsig : String.length sig = 32%nat /\ string_forall is_upper_hex sig = true).
  { unfold sig, MD5.hmac_hex, MD5.hmac.
    match goal with
    | |- context [hex_of_bytes (MD5.digest ?x)] =>
        destruct (md5_digest_bytes x) as [Hlen Hrange];
        destruct (upper_hex_of_bytes _ Hrange) as [H1 H2]
    end.
    rewrite Hlen in H1. split; assumption. }
  destruct Hsig as [Hlen Hhex].
  exists sig. repeat apply conj; try assumption; try reflexivity.
  rewrite !length_append, Hlen. simpl. lia.
Qed.

(** ** Requests *)

Lemma string_forall_append (P : Ascii.ascii -> bool) (a b : string) :
  string_forall P (a +:+ b) = string_forall P a && string_forall P b.
Proof.
  induction a as [|c a IH]; [reflexivity|].
  change (String c a +:+ b) with (String c (a +:+ b)). simpl.
  now rewrite IH, andb_assoc.
Qed.

Lemma count_char_append (c : Ascii.ascii) (a b : string) :
  count_char c (a +:+ b) = (count_char c a + count_char c b)%nat.
Proof.
  induction a as [|x a IH]; [reflexivity|].
  change (String x a +:+ b) with (String x (a +:+ b)). simpl.
  rewrite IH. lia.
Qed.

(** One serialized byte: query characters only, none of them a separator. *)
Lemma form_encode_char_facts (c : Ascii.ascii) :
  string_forall is_query_char (form_encode_char c) = true
  /\ count_char equals (form_encode_char c) = 0%nat
  /\ count_char ampersand (form_encode_char c) = 0%nat.
Proof.
  destruct c as [[] [] [] [] [] [] [] []]; vm_compute; repeat split.
Qed.

Lemma form_encode_facts (s : string) :
  string_forall is_query_char (form_encode s) = true
  /\ count_char equals (form_encode s) = 0%nat
  /\ count_char ampersand (form_encode s) = 0%nat.
Proof.
  induction s as [|c s (IH1 & IH2 & IH3)]; [repeat split|].
  destruct (form_encode_char_facts c) as (H1 & H2 & H3).
  cbn [form_encode].
  rewrite string_forall_append, !count_char_append, H1, H2, H3, IH1, IH2, IH3.
  repeat split.
Qed.

Lemma qs_toString_cons (k v : string) (l : list (string * string)) :
  qs_toString ((k, v) :: l)
  = form_encode k +:+ "=" +:+ form_encode v
    +:+ match l with [] => "" | _ => "&" +:+ qs_toString l end.
Proof.
  destruct l as [|[k' v'] l]; cbn [qs_toString]; [|reflexivity].
  now rewrite append_nil_r.
Qed.

Lemma qs_toString_facts (l : list (string * string)) :
  string_forall is_query_char (qs_toString l) = true
  /\ count_char equals (qs_toString l) = length l
  /\ count_char ampersand (qs_toString l) = Nat.pred (length l).
Proof.
  induction l as [|[k v] l (IH1 & IH2 & IH3)]; [repeat split|].
  rewrite qs_toString_cons.
  destruct (form_encode_facts k) as (K1 & K2 & K3).
  destruct (form_encode_facts v) as (V1 & V2 & V3).
  rewrite !string_forall_append, !count_char_append, K1, K2, K3, V1, V2, V3.
  destruct l as [|kv l].
  - repeat split.
  - rewrite !string_forall_append, !count_char_append, IH1, IH2, IH3.
    cbn [length Nat.pred]. repeat split; vm_compute; reflexivity || lia.
Qed.

Lemma qs_set_fresh (k v : string) (l : list (string * string)) :
  k ∉ map fst l -> qs_set k v l = l ++ [(k, v)].
Proof.
  induction l as [|[k' v'] l IH]; intros Hk; [reflexivity|].
  cbn [qs_set]. destruct (String.eqb_spec k' k) as [->|Hne].
  - exfalso. apply Hk. simpl. left.
  - simpl. f_equal. apply IH. intros Hin. apply Hk. simpl. now right.
Qed.

(** With one entry for each name, the pairs go into the query string in
    the order of the entries. *)
Lemma query_of_distinct (params : list (string * option string)) :
  NoDup (map fst params) ->
  query_of params = map (fun kv => (fst kv, default "" (snd kv))) params.
Proof.
  unfold query_of.
  assert (H : forall acc,
            NoDup (map fst acc ++ map fst params) ->
            fold_left (fun qs kv => qs_set (fst kv) (default "" (snd kv)) qs)
                      params acc
            = acc ++ map (fun kv => (fst kv, default "" (snd kv))) params).
  { induction params as [|[k v] params IH]; intros acc Hnd.
    - simpl. now rewrite app_nil_r.
    - cbn [fold_left map fst snd]. simpl in Hnd.
      apply NoDup_app in Hnd as (Hacc & Hdisj & Hrest).
      apply NoDup_cons in Hrest as [Hk Hrest].
      rewrite qs_set_fresh.
      + rewrite IH.
        * now rewrite <- app_assoc.
        * rewrite map_app. simpl. rewrite <- app_assoc. simpl.
          apply NoDup_app. repeat split; [exact Hacc| |].
          -- intros x Hx [->|Hin]%elem_of_cons.
             ++ apply (Hdisj _ Hx). left.
             ++ apply (Hdisj _ Hx). now right.
          -- now apply NoDup_cons.
      + intros Hin. apply (Hdisj _ Hin). left. }
  intros Hnd. apply (H []). exact Hnd.
Qed.

(** X15: the request [execute] hands over.  Its URL is the base URI and the
    endpoint, followed, only when there are parameters, by a question mark
    and the query string: one [name=value] for each parameter, an
    [undefined] value as the empty string, separated by [&], and no
    character of a name or value can pass for a separator.  The signature
    headers are computed from the method, the endpoint and the payload:
    the parameters have no part in them.  The payload is sent only with
    PATCH, POST and PUT. *)
Theorem execute_builds_the_request
    (api : TabloAPI) (date method endpoint : string)
    (params : list (string * option string)) (payload : option string)
    (credentials : Credentials) (time : Z) :
  NoDup (map fst params) ->
  let r := execute api date method endpoint params payload credentials time in
  let q := qs_toString (map (fun kv => (fst kv, default "" (snd kv))) params) in
  r_url r = base_uri api +:+ endpoint
            +:+ match params with [] => "" | _ => "?" +:+ q end
  /\ string_forall is_query_char q = true
  /\ count_char equals q = length params
  /\ count_char ampersand q = Nat.pred (length params)
  /\ (forall params',
        r_headers (execute api date method endpoint params' payload credentials time)
        = r_headers r)
  /\ r_json r = (if sends_body method then payload else None)
  /\ r_method r = method.
Proof.
  intros Hnd r q. subst r. unfold execute. cbn [r_url r_headers r_json r_method].
  rewrite (query_of_distinct params Hnd). fold q.
  destruct (qs_toString_facts (map (fun kv => (fst kv, default "" (snd kv))) params))
    as (H1 & H2 & H3).
  fold q in H1, H2, H3. rewrite length_map in H2, H3.
  repeat apply conj; try assumption; try reflexivity.
  destruct params as [|kv params]; cbn [length Nat.ltb Nat.leb].
  - now rewrite append_nil_r.
  - now rewrite append_assoc.
Qed.

Lemma execute_builds_the_request_witness :
  r_url (api_delete example_api example_date "/player/sessions/tok-1"
                    [("lh", None)] 2000)
  = "http://192.168.1.20:8887/player/sessions/tok-1?lh=".
Proof.
  refine (proj1 (execute_builds_the_request
            example_api example_date "DELETE" "/player/sessions/tok-1"
            [("lh", None)] None (keys example_api) 2000 _)).
  apply NoDup_cons. split; [apply not_elem_of_nil | apply NoDup_nil_2].
Defined.

(** ** Watch sessions *)

Lemma session_step_other (date : string) (time : Z) (tok : string)
    (c : session_call) (d : Tablo) :
  touches tok c = false ->
  session_channels (session_step date time c d) !! tok = session_channels d !! tok.
Proof.
  intros Hc. destruct c as [info chans dinfo answer cid | | | answer t]; try reflexivity.
  - cbn [session_step]. unfold watchChannel.
    destruct info; [|reflexivity]. destruct (channel chans cid); [|reflexivity].
    destruct answer as [response| |]; try reflexivity.
    cbn [touches] in Hc. cbn [snd fst set_session_channels session_channels].
    apply lookup_insert_ne. intros Heq. rewrite Heq, String.eqb_refl in Hc.
    discriminate.
  - cbn [session_step]. unfold deleteSession.
    destruct answer as [[]|]; try reflexivity.
    cbn [touches] in Hc. cbn [snd fst set_session_channels session_channels].
    apply lookup_delete_ne. intros Heq. rewrite Heq, String.eqb_refl in Hc.
    discriminate.
Qed.

Lemma session_run_other (date : string) (time : Z) (tok : string)
    (calls : list session_call) (d : Tablo) :
  forallb (fun c => negb (touches tok c)) calls = true ->
  session_channels (session_run date time calls d) !! tok = session_channels d !! tok.
Proof.
  revert d. induction calls as [|c calls IH]; intros d Hcalls; [reflexivity|].
  simpl in Hcalls. apply andb_prop in Hcalls as [Hc Hcalls].
  apply negb_true_iff in Hc. unfold session_run in *. simpl.
  rewrite IH by exact Hcalls. now apply session_step_other.
Qed.

Lemma find_channel (channels : list Channel) (channel_id : string) (ch : Channel) :
  channel channels channel_id = Some ch ->
  In ch channels /\ channel_identifier ch = channel_id.
Proof.
  unfold channel. intros H. apply List.find_some in H as [Hin Heq].
  split; [exact Hin | now apply String.eqb_eq].
Qed.

(** X16: the channel of a session is remembered from [watchChannel] to the
    later calls.  After a watch request the device answered, a keepalive or
    a lookup of that session returns the device's new answer together with
    the channel the session was opened on, whatever was done with other
    sessions in between; once a [deleteSession] for the token has been
    answered ok, they return the answer with no channel, while a deletion
    that was refused or failed leaves the channel in place. *)
Theorem session_channel_is_remembered
    (date : string) (time : Z) (d : Tablo) (info : Info) (channels : list Channel)
    (device_info channel_id : string) (response renewed : PlayerSession)
    (ch : Channel) (others : list session_call) :
  channel channels channel_id = Some ch ->
  forallb (fun c => negb (touches (token response) c)) others = true ->
  let opened :=
    watchChannel date (Some info) channels device_info (Answer response)
                 channel_id time d in
  let d1 := session_run date time others (snd (fst opened)) in
  let tok := inr response : string + PlayerSession in
  let deleted ok := snd (fst (deleteSession date ok tok time d1)) in
  fst (fst opened) = Some (mkWatchSession response (Some ch))
  /\ channel_identifier ch = channel_id
  /\ fst (keepaliveSession date (Answer renewed) tok time d1)
     = Some (mkWatchSession renewed (Some ch))
  /\ fst (session date (Answer renewed) tok time d1)
     = Some (mkWatchSession renewed (Some ch))
  /\ fst (keepaliveSession date (Answer renewed) tok time (deleted (Some true)))
     = Some (mkWatchSession renewed None)
  /\ fst (keepaliveSession date (Answer renewed) tok time (deleted (Some false)))
     = Some (mkWatchSession renewed (Some ch))
  /\ fst (keepaliveSession date (Answer renewed) tok time (deleted None))
     = Some (mkWatchSession renewed (Some ch))
  /\ fst (keepaliveSession date NotOk tok time d1) = None
  /\ fst (keepaliveSession date Failed tok time d1) = None.
Proof.
  intros Hch Hothers opened d1 tok deleted.
  assert (Hopened : opened
            = (Some (mkWatchSession response (Some ch)),
               set_session_channels (<[token response := ch]> (session_channels d)) d,
               Some (api_post (api d) date
                       ("/guide/channels/" +:+ channel_id +:+ "/watch")
                       lh_param (Some device_info) time))).
  { subst opened. unfold watchChannel. now rewrite Hch. }
  assert (Hd1 : session_channels d1 !! token response = Some ch).
  { subst d1. rewrite session_run_other by exact Hothers. rewrite Hopened.
    cbn [snd fst set_session_channels session_channels]. apply lookup_insert_eq. }
  repeat apply conj.
  - now rewrite Hopened.
  - apply (find_channel _ _ _ Hch).
  - unfold keepaliveSession. cbn [fst token_of tok]. now rewrite Hd1.
  - unfold session. cbn [fst token_of tok]. now rewrite Hd1.
  - unfold keepaliveSession, deleted, deleteSession.
    cbn [fst snd token_of tok set_session_channels session_channels].
    now rewrite lookup_delete_eq.
  - unfold keepaliveSession, deleted, deleteSession.
    cbn [fst snd token_of tok]. now rewrite Hd1.
  - unfold keepaliveSession, deleted, deleteSession.
    cbn [fst snd token_of tok]. now rewrite Hd1.
  - reflexivity.
  - reflexivity.
Qed.

Lemma session_channel_is_remembered_witness :
  fst (keepaliveSession example_date (Answer other_session) (inr example_session) 2000
         (session_run example_date 2000
            [Delete (Some true) (inl "tok-9")]
            (snd (fst (watchChannel example_date (Some (mkInfo "D1"))
                         [example_channel] "{}" (Answer example_session)
                         "C1" 30000 example_device)))))
  = Some (mkWatchSession other_session (Some example_channel)).
Proof.
  refine (proj1 (proj2 (proj2 (session_channel_is_remembered
            example_date 2000 example_device (mkInfo "D1") [example_channel]
            "{}" "C1" example_session other_session example_channel
            [Delete (Some true) (inl "tok-9")] _ _)))).
  - reflexivity.
  - reflexivity.
Defined.

(** X17: [watchChannel] asks the device for a session only when the device
    information came and the channel id is the identifier of a channel of
    the device; otherwise it returns nothing and sends nothing, and a
    supervisor that starts on that answer reports 'error' and stays as it
    was.  When the request is made it is a POST of the client description
    to the watch endpoint of that channel, and the session that comes back
    carries the first channel of the list with that identifier. *)
Theorem watchChannel_needs_a_known_channel
    (date : string) (info : option Info) (channels : list Channel)
    (device_info channel_id : string) (answer : reply PlayerSession)
    (time : Z) (d : Tablo) (w : World) :
  let result := watchChannel date info channels device_info answer channel_id time d in
  (info = None \/ channel channels channel_id = None ->
     result = (None, d, None)
     /\ (_active (sup w) = false ->
         emitted (run [CallStart; WatchResolved (ws_session <$> fst (fst result))] w)
         = emitted w ++ [Error "Failed to start session"]))
  /\ (forall request, snd result = Some request ->
        r_method request = "POST"
        /\ r_json request = Some device_info
        /\ r_url request
           = base_uri (api d) +:+ "/guide/channels/" +:+ channel_id +:+ "/watch?lh=")
  /\ (forall ws, fst (fst result) = Some ws ->
        exists response ch,
          answer = Answer response
          /\ ws = mkWatchSession response (Some ch)
          /\ channel channels channel_id = Some ch
          /\ channel_identifier ch = channel_id
          /\ session_channels (snd (fst result)) !! token response = Some ch).
Proof.
  intros result. subst result. unfold watchChannel. repeat apply conj.
  - intros Hmiss.
    assert (Hnone : match info, channel channels channel_id with
                    | Some _, Some ch =>
                        match answer with
                        | Answer response =>
                            (Some (mkWatchSession response (Some ch)),
                             set_session_channels
                               (<[token response := ch]> (session_channels d)) d,
                             Some (api_post (api d) date
                                     ("/guide/channels/" +:+ channel_id +:+ "/watch")
                                     lh_param (Some device_info) time))
                        | _ => (None, d,
                                Some (api_post (api d) date
                                        ("/guide/channels/" +:+ channel_id +:+ "/watch")
                                        lh_param (Some device_info) time))
                        end
                    | _, _ => (None, d, None)
                    end = (None, d, None)).
    { destruct Hmiss as [-> | ->]; [reflexivity|]. now destruct info. }
    rewrite Hnone. split; [reflexivity|].
    intros Hact. cbn [fst fmap option_fmap option_map].
    rewrite !run_cons. unfold run. cbn [fold_left step].
    unfold start_call. rewrite Hact. cbn [snd pending_starts set_pending_starts request].
    reflexivity.
  - intros request. destruct info; [|discriminate].
    destruct (channel channels channel_id); [|discriminate].
    assert (Hreq : forall r0,
              r0 = api_post (api d) date
                     ("/guide/channels/" +:+ channel_id +:+ "/watch")
                     lh_param (Some device_info) time ->
              r_method r0 = "POST" /\ r_json r0 = Some device_info
              /\ r_url r0 = base_uri (api d) +:+ "/guide/channels/" +:+ channel_id
                            +:+ "/watch?lh=").
    { intros r0 ->. unfold api_post, execute. cbn [r_method r_json r_url].
      repeat apply conj; try reflexivity.
      cbn [lh_param length Nat.ltb Nat.leb query_of fold_left qs_set fst snd
           default from_option qs_toString form_encode].
      vm_compute form_encode_char.
      now rewrite !append_assoc. }
    destruct answer; intros [= <-]; now apply Hreq.
  - intros ws. destruct info; [|discriminate].
    destruct (channel channels channel_id) as [ch|] eqn:Hch; [|discriminate].
    destruct answer as [response| |]; try discriminate.
    intros [= <-]. exists response, ch.
    repeat apply conj; try reflexivity.
    + apply (find_channel _ _ _ Hch).
    + cbn [snd fst set_session_channels session_channels]. apply lookup_insert_eq.
Qed.

(** ** The Lighthouse client *)

Ltac lh_simpl :=
  cbn -[lh_request status_error Nat.leb Nat.ltb lh_authorization];
  rewrite ?andb_true_r, ?andb_false_r;
  cbn -[lh_request status_error Nat.leb Nat.ltb lh_authorization].

Ltac lh_fetch i :=
  match goal with
  | |- context [fetch_at ?n i] =>
      let s := fresh "status" in
      destruct (fetch_at n i) as [? | ? s ? |] eqn:?; lh_simpl;
      [ | try (destruct (s =? 401)%Z eqn:?; lh_simpl) | ]
  end.

Ltac lh_login i :=
  match goal with
  | |- context [login_at ?n i] =>
      destruct (login_at n i) as [? | |] eqn:?; lh_simpl
  end.

Ltac lh_requests :=
  repeat (apply List.Forall_cons;
          [eexists; split;
           [unfold lh_request; cbn [lr_authorization lh_token set_lh_token];
            try match goal with H : lh_token _ = Some _ |- _ => rewrite H end;
            reflexivity
           | eauto]
          |]);
  apply List.Forall_nil.

Ltac lh_done :=
  split; [cbn; lia|]; split; [cbn; lia|];
  split; [lh_requests|];
  split; [cbn; intros; try lia; try discriminate; reflexivity|];
  split; [cbn; intros; try discriminate; reflexivity|];
  cbn; split;
  [ intros;
    first [lia | discriminate | (split; [assumption || reflexivity | congruence])]
  | intros [Hnone Hlogin];
    first [reflexivity | congruence
          | (exfalso; eapply Hlogin; first [eassumption | reflexivity])] ].

(** X18: a call of the Lighthouse [execute] logs in at most twice and sends
    at most two requests to the endpoint, whatever the network answers.
    Every request it sends carries the [Authorization] of a token: the one
    the client held or one a login returned; a call that sends no request
    throws the authentication error, which happens exactly when the client
    held no token and its login did not succeed; and a call that returns
    leaves the client authenticated. *)
Theorem lh_execute_bounded (net : Network) (l : Lighthouse) (method endpoint : string)
    (params : list (string * string)) (payload token : option string) :
  let result := lh_execute net method endpoint params payload token l in
  let calls := snd result in
  (logins calls <= 2)%nat /\ (fetches calls <= 2)%nat /\
  Forall (fun r => exists t,
            lr_authorization r = lh_authorization (Some t) /\
            (lh_token l = Some t \/ exists n, login_at net n = LoginOk t))
         (requests calls) /\
  (fetches calls = 0%nat ->
   fst (fst result) = Thrown "Failed to authenticate with Lighthouse API") /\
  (forall json, fst (fst result) = Returned json ->
                authenticated (snd (fst result)) = true) /\
  (fetches calls = 0%nat <->
   lh_token l = None /\ forall t, login_at net 0%nat <> LoginOk t).
Proof.
  cbv zeta.
  unfold lh_execute, execute_retry, execute_body, authenticate, authenticated,
    logins, fetches, requests.
  destruct (lh_token l) as [t0|] eqn:Ht0; lh_simpl.
  - lh_fetch 0%nat; try (rewrite Ht0); try lh_done.
    lh_login 0%nat; try (rewrite Ht0); try lh_done.
    lh_fetch 1%nat; lh_done.
  - lh_login 0%nat; try lh_done.
    lh_fetch 0%nat; try lh_done.
    lh_login 1%nat; try lh_done.
    lh_fetch 1%nat; lh_done.
Qed.

(** X19: what a rejected token leads to.  When the client holds a token and
    the endpoint answers the request with status 401, [execute] logs in
    again.  If the login succeeds, the request is sent once more with the
    new token and the call ends as that second request does: a second 401
    is thrown and not retried.  If the login is refused, the call throws
    the first answer's error and the client has lost its token; if the
    login itself fails, the call throws and the old token stays. *)
Theorem lh_execute_reauthenticates (net : Network) (l : Lighthouse)
    (method endpoint : string) (params : list (string * string))
    (payload token : option string) (t0 : LToken) (url text : string) :
  lh_token l = Some t0 ->
  fetch_at net 0%nat = FetchNotOk url 401 text ->
  let first := Fetch (lh_request l method endpoint params payload token) in
  let login := Login (email l) (password l) in
  lh_execute net method endpoint params payload token l =
  match login_at net 0%nat with
  | LoginOk t1 =>
      let l1 := set_lh_token (Some t1) l in
      (final_outcome (fetch_at net 1%nat), l1,
       [first; login; Fetch (lh_request l1 method endpoint params payload token)])
  | LoginRefused =>
      (Thrown (status_error url 401 text), set_lh_token None l, [first; login])
  | LoginFailed =>
      (Thrown (status_error url 401 text), l, [first; login])
  end.
Proof.
  intros Ht0 Hf0. cbv zeta.
  unfold lh_execute, execute_retry, execute_body, authenticate, logins, fetches.
  rewrite Ht0. lh_simpl. rewrite Hf0. lh_simpl.
  destruct (login_at net 0%nat) as [t1| |]; lh_simpl; try reflexivity.
  destruct (fetch_at net 1%nat) as [json|url1 status1 text1|]; lh_simpl; reflexivity.
Qed.

Lemma lh_execute_reauthenticates_witness :
  let result :=
    lh_execute example_network "GET" "/account/" [] None None example_lighthouse in
  fst (fst result) = Returned "{}" /\
  map lr_authorization (requests (snd result)) = ["Bearer stale"; "Bearer fresh"].
Proof.
  cbv zeta.
  rewrite (lh_execute_reauthenticates example_network example_lighthouse
             "GET" "/account/" [] None None (mkLToken "stale" "Bearer" true)
             "https://lighthousetv.ewscloud.com/api/v2/account/?" "Unauthorized"
             eq_refl eq_refl).
  split; reflexivity.
Defined.

(** ** The text of the fingerprint *)

Lemma json_read_escape (c : Ascii.ascii) (rest : string) :
  json_read_char (json_escape c +:+ rest) = Some (c, rest).
Proof.
  destruct c as [[] [] [] [] [] [] [] []]; vm_compute; reflexivity.
Qed.

Lemma json_escape_all_cancel (a b r1 r2 : string) :
  json_escape_all a +:+ dquote +:+ r1 = json_escape_all b +:+ dquote +:+ r2 ->
  a = b /\ r1 = r2.
Proof.
  revert b. induction a as [|c a IH]; intros [|d b] H.
  - split; [reflexivity|]. cbn in H. now injection H.
  - exfalso. cbn [json_escape_all] in H. rewrite append_assoc in H.
    pose proof (f_equal json_read_char H) as Hr. rewrite json_read_escape in Hr.
    cbn in Hr. injection Hr as Hd _. subst d. vm_compute in H. discriminate.
  - exfalso. cbn [json_escape_all] in H. rewrite append_assoc in H.
    pose proof (f_equal json_read_char H) as Hr. rewrite json_read_escape in Hr.
    cbn in Hr. injection Hr as Hc _. subst c. vm_compute in H. discriminate.
  - cbn [json_escape_all] in H. rewrite !append_assoc in H.
    pose proof (f_equal json_read_char H) as Hr.
    rewrite !json_read_escape in Hr. injection Hr as Hc Hrest. subst d.
    apply IH in Hrest as [-> ->]. split; reflexivity.
Qed.

(** X20: the text [instance] hashes into the fingerprint tells the pairs
    apart: two pairs of server id and channel id are written as the same
    text only when they are the same pair, whatever characters the ids
    hold (a quote or a backslash in an id is escaped and cannot end the
    value early). *)
Theorem json_identity_tells_pairs_apart (server1 channel1 server2 channel2 : string) :
  json_identity server1 channel1 = json_identity server2 channel2
  <-> server1 = server2 /\ channel1 = channel2.
Proof.
  split; [|intros [-> ->]; reflexivity].
  unfold json_identity, json_string. intros H.
  do 3 apply String.app_inj in H.
  rewrite !append_assoc in H. apply String.app_inj in H.
  apply json_escape_all_cancel in H as [Hs H]. split; [exact Hs|].
  do 6 apply String.app_inj in H.
  apply json_escape_all_cancel in H as [Hc _]. exact Hc.
Qed.
